(** * A model of the Binance Futures testnet trading bot (trading_bot.py)

    The facade [BasicBot], its logger [TradingBotLogger], the console helper
    [validate_input] and the start of [main] are embedded as functions over an
    explicit world: the exchange environment behind the vendor client, the
    handlers attached to the process-wide "TradingBot" logger, and one
    chronological trace of the log records written and the vendor calls
    made.  Python values are the JSON-like [value]s; a raised exception is
    the [Raise] case of [Result]. *)

From Stdlib Require Import ZArith Floats Ascii String.
From stdpp Require Import gmap strings list fin_maps pretty.

(** ** Python values *)

(** What travels between the facade, the logger and the vendor client:
    [None], booleans, integers, floats, strings, lists and dicts keyed by
    strings. *)
#[warnings="-register-all"]
Inductive value : Type :=
  | VNone
  | VBool (b : bool)
  | VInt (n : Z)
  | VFloat (x : float)
  | VStr (s : string)
  | VList (l : list value)
  | VDict (d : gmap string value).

Abbreviation dict := (gmap string value).

(** Truth value of an object, as [if v:] and [not v] test it. *)
Definition truthy (v : value) : bool :=
  match v with
  | VNone => false
  | VBool b => b
  | VInt n => negb (n =? 0)%Z
  | VFloat x => negb (PrimFloat.eqb x 0%float)
  | VStr s => negb (bool_decide (s = ""))
  | VList l => negb (bool_decide (length l = 0))
  | VDict d => negb (bool_decide (size d = 0))
  end.

(** [v == s] for a string [s]: only an equal string compares equal. *)
Definition eq_str (v : value) (s : string) : bool :=
  match v with
  | VStr t => bool_decide (t = s)
  | _ => false
  end.

(** ** Exceptions *)

(** The classes that occur.  All of them derive from [Exception]; the
    vendor's order exceptions have subclasses of their own, which an
    [except BinanceOrderException] clause catches as well. *)
Inductive exn_class : Type :=
  | BinanceAPIException
  | BinanceOrderException
  | BinanceOrderSubclass (name : string)
  | BinanceRequestException
  | ValueError
  | KeyError
  | TypeError
  | AttributeError
  | EOFError
  | OtherException (name : string).

(** An exception object: its class and [str(e)]. *)
Record exn : Type := Exn { exn_cls : exn_class; exn_str : string }.

Global Instance exn_class_eq_dec : EqDecision exn_class.
Proof. solve_decision. Defined.

Global Instance exn_eq_dec : EqDecision exn.
Proof. solve_decision. Defined.

(** [isinstance(e, cls)] for the two vendor classes the facade names. *)
Definition is_api_exception (e : exn) : bool :=
  match exn_cls e with
  | BinanceAPIException => true
  | _ => false
  end.

Definition is_order_exception (e : exn) : bool :=
  match exn_cls e with
  | BinanceOrderException | BinanceOrderSubclass _ => true
  | _ => false
  end.

(** [except Exception]: every class above derives from [Exception]. *)
Definition is_exception (e : exn) : bool := true.

(** The result of evaluating an expression or running a statement. *)
Inductive Result (A : Type) : Type :=
  | Ok (a : A)
  | Raise (e : exn).

Arguments Ok {A} a.
Arguments Raise {A} e.

Global Instance Result_ret : MRet Result := λ A a, Ok a.

Global Instance Result_bind : MBind Result := λ A B f r,
  match r with
  | Ok a => f a
  | Raise e => Raise e
  end.

(** ** Operations on values *)

(** [v[k]] for a string key. *)
Definition subscript (v : value) (k : string) : Result value :=
  match v with
  | VDict d =>
      match d !! k with
      | Some x => Ok x
      | None => Raise (Exn KeyError ("'" +:+ k +:+ "'"))
      end
  | VList _ => Raise (Exn TypeError "list indices must be integers or slices, not str")
  | VStr _ => Raise (Exn TypeError "string indices must be integers, not 'str'")
  | VNone => Raise (Exn TypeError "'NoneType' object is not subscriptable")
  | VBool _ => Raise (Exn TypeError "'bool' object is not subscriptable")
  | VInt _ => Raise (Exn TypeError "'int' object is not subscriptable")
  | VFloat _ => Raise (Exn TypeError "'float' object is not subscriptable")
  end.

(** [v.get(k, default)]: only a dict has the method. *)
Definition get_default (v : value) (k : string) (dflt : value) : Result value :=
  match v with
  | VDict d => Ok (default dflt (d !! k))
  | VList _ => Raise (Exn AttributeError "'list' object has no attribute 'get'")
  | VStr _ => Raise (Exn AttributeError "'str' object has no attribute 'get'")
  | VNone => Raise (Exn AttributeError "'NoneType' object has no attribute 'get'")
  | VBool _ => Raise (Exn AttributeError "'bool' object has no attribute 'get'")
  | VInt _ => Raise (Exn AttributeError "'int' object has no attribute 'get'")
  | VFloat _ => Raise (Exn AttributeError "'float' object has no attribute 'get'")
  end.

(** The one-character strings of a string, as iterating over it yields. *)
Fixpoint chars (s : string) : list value :=
  match s with
  | EmptyString => []
  | String a rest => VStr (String a EmptyString) :: chars rest
  end.

(** The items a [for] loop or a generator draws from [v]: the elements of
    a list, the keys of a dict, the characters of a string. *)
Definition iterate (v : value) : Result (list value) :=
  match v with
  | VList l => Ok l
  | VDict d => Ok (VStr <$> (map_to_list d).*1)
  | VStr s => Ok (chars s)
  | VNone => Raise (Exn TypeError "'NoneType' object is not iterable")
  | VBool _ => Raise (Exn TypeError "'bool' object is not iterable")
  | VInt _ => Raise (Exn TypeError "'int' object is not iterable")
  | VFloat _ => Raise (Exn TypeError "'float' object is not iterable")
  end.

(** [len(v)]. *)
Definition len (v : value) : Result Z :=
  match v with
  | VList l => Ok (Z.of_nat (length l))
  | VDict d => Ok (Z.of_nat (size d))
  | VStr s => Ok (Z.of_nat (String.length s))
  | VNone => Raise (Exn TypeError "object of type 'NoneType' has no len()")
  | VBool _ => Raise (Exn TypeError "object of type 'bool' has no len()")
  | VInt _ => Raise (Exn TypeError "object of type 'int' has no len()")
  | VFloat _ => Raise (Exn TypeError "object of type 'float' has no len()")
  end.

(** ** Strings: [str.upper] and [str.strip] on ASCII text *)

Definition upper_ascii (a : ascii) : ascii :=
  let n := nat_of_ascii a in
  if (97 <=? n)%nat && (n <=? 122)%nat then ascii_of_nat (n - 32) else a.

Fixpoint upper (s : string) : string :=
  match s with
  | EmptyString => EmptyString
  | String a rest => String (upper_ascii a) (upper rest)
  end.

Definition is_space (a : ascii) : bool :=
  let n := nat_of_ascii a in
  ((9 <=? n)%nat && (n <=? 13)%nat) || ((28 <=? n)%nat && (n <=? 32)%nat).

Fixpoint lstrip (s : string) : string :=
  match s with
  | EmptyString => EmptyString
  | String a rest => if is_space a then lstrip rest else s
  end.

Fixpoint rstrip (s : string) : string :=
  match s with
  | EmptyString => EmptyString
  | String a rest =>
      match rstrip rest with
      | EmptyString => if is_space a then EmptyString else String a EmptyString
      | r => String a r
      end
  end.

Definition strip (s : string) : string := rstrip (lstrip s).

(** ** Floats as text *)

(** [float(s)] and [str(x)] are the interpreter's; the model takes them as
    given.  [float_of_str s = None] stands for the [ValueError] that
    [float(s)] raises on text that is no number. *)
Class FloatText : Type := {
  float_of_str : string → option float;
  str_of_float : float → string
}.

(** ** The vendor client *)

(** The attributes of a [binance.client.Client] object this code reads or
    writes. *)
Record Client : Type := {
  client_api_key : string;
  client_api_secret : string;
  client_testnet : bool;
  API_URL : string;
  FUTURES_URL : string
}.

(** The vendor library and the exchange behind it.  [X] is the state of
    the environment (network, exchange, wall clock); every call may change
    it and either returns a JSON-like value or raises. *)
Class Exchange (X : Type) : Type := {
  Client_new : string → string → bool → X → Result Client * X;
  futures_ping : Client → X → Result value * X;
  futures_account : Client → X → Result value * X;
  futures_symbol_ticker : Client → dict → X → Result value * X;
  futures_exchange_info : Client → X → Result value * X;
  futures_create_order : Client → dict → X → Result value * X;
  futures_cancel_order : Client → dict → X → Result value * X;
  futures_get_open_orders : Client → dict → X → Result value * X;
  futures_get_order : Client → dict → X → Result value * X;
  (** [int(time.time() * 1000)] as read in this state *)
  time_ms : X → Z
}.

(** Constants of the vendor's [Client] class. *)
Definition FUTURE_ORDER_TYPE_MARKET : string := "MARKET".
Definition FUTURE_ORDER_TYPE_LIMIT : string := "LIMIT".
Definition FUTURE_ORDER_TYPE_STOP : string := "STOP".
Definition TIME_IN_FORCE_GTC : string := "GTC".

(** ** Log records and the trace *)

Inductive level : Type := INFO | ERROR.

(** The message of a log record, one constructor per format string of
    [TradingBotLogger] plus free text:
    - [ApiRequest m p]: "API REQUEST - Method: m, Params: json(p)"
    - [ApiResponse m r]: "API RESPONSE - Method: m, Response: json(r)"
    - [ErrorMsg c s]: "ERROR c: s"
    - [OrderExecuted o]: "ORDER EXECUTED: json(o)" *)
Inductive message : Type :=
  | ApiRequest (method : string) (params : dict)
  | ApiResponse (method : string) (response : value)
  | ErrorMsg (context : string) (error : string)
  | OrderExecuted (order_details : value)
  | Text (s : string).

(** A handler attached to the "TradingBot" logger. *)
Inductive handler : Type :=
  | FileHandler (log_file : string)
  | StreamHandler_stdout.

(** What the program does that can be observed from outside: a record
    handed to the "TradingBot" logger (every attached handler then writes
    it), or a call of a vendor method with its keyword arguments. *)
Inductive event : Type :=
  | Log (lvl : level) (msg : message)
  | Call (method : string) (kwargs : dict).

(** The method names of the request records of a trace, in order. *)
Definition requests_of (tr : list event) : list string :=
  omap (λ ev, match ev with Log _ (ApiRequest m _) => Some m | _ => None end) tr.

(** The method names of the response records of a trace, in order. *)
Definition responses_of (tr : list event) : list string :=
  omap (λ ev, match ev with Log _ (ApiResponse m _) => Some m | _ => None end) tr.

(** The error records of a trace: context and error text. *)
Definition errors_of (tr : list event) : list (string * string) :=
  omap (λ ev, match ev with Log ERROR (ErrorMsg c s) => Some (c, s) | _ => None end) tr.

(** The vendor calls of a trace: method and keyword arguments. *)
Definition calls_of (tr : list event) : list (string * dict) :=
  omap (λ ev, match ev with Call m kw => Some (m, kw) | _ => None end) tr.

(** ** The world and the monad of the facade *)

Section Facade.

Context {X : Type} `{!Exchange X} `{!FloatText}.

Record World : Type := {
  env : X;
  handlers : list handler;
  trace : list event
}.

(** A statement: it runs in a world, returns or raises, and leaves a
    world. *)
Definition M (A : Type) : Type := World → Result A * World.

Global Instance M_ret : MRet M := λ A a w, (Ok a, w).

Global Instance M_bind : MBind M := λ A B f m w,
  match m w with
  | (Ok a, w') => f a w'
  | (Raise e, w') => (Raise e, w')
  end.

Definition raise {A : Type} (e : exn) : M A := λ w, (Raise e, w).

(** A pure evaluation inside a statement. *)
Definition eval {A : Type} (r : Result A) : M A := λ w, (r, w).

(** [try: body except C1 as e: h1 ... except Cn as e: hn]: the first
    clause whose class matches handles the exception; an exception raised
    by a handler is not handled again. *)
Definition try_except {A : Type} (body : M A)
    (clauses : list ((exn → bool) * (exn → M A))) : M A := λ w,
  match body w with
  | (Ok a, w') => (Ok a, w')
  | (Raise e, w') =>
      match List.find (λ c, c.1 e) clauses with
      | Some c => c.2 e w'
      | None => (Raise e, w')
      end
  end.

(** A call of a vendor method: recorded in the trace, run in the
    environment. *)
Definition vendor {A : Type} (method : string) (kwargs : dict)
    (f : X → Result A * X) : M A := λ w,
  let '(r, x) := f (env w) in
  (r, {| env := x; handlers := handlers w;
         trace := trace w ++ [Call method kwargs] |}).

Definition now_ms : M Z := λ w, (Ok (time_ms (env w)), w).

(** ** TradingBotLogger *)

(** [self.logger.info(...)] and [self.logger.error(...)]: one record. *)
Definition logger_log (lvl : level) (msg : message) : M unit := λ w,
  (Ok tt, {| env := env w; handlers := handlers w;
             trace := trace w ++ [Log lvl msg] |}).

Definition TradingBotLogger_init (log_file : string) : M unit := λ w,
  (Ok tt, {| env := env w;
             handlers := handlers w ++ [FileHandler log_file; StreamHandler_stdout];
             trace := trace w |}).

Definition log_api_request (method : string) (params : dict) : M unit :=
  logger_log INFO (ApiRequest method params).

Definition log_api_response (method : string) (response : value) : M unit :=
  logger_log INFO (ApiResponse method response).

Definition log_error (error : exn) (context : string) : M unit :=
  logger_log ERROR (ErrorMsg context (exn_str error)).

Definition log_order_execution (order_details : value) : M unit :=
  logger_log INFO (OrderExecuted order_details).

(** ** BasicBot *)

Record BasicBot : Type := { client : Client }.

Definition testnet_url : string := "https://testnet.binancefuture.com".

(** The two assignments [client.API_URL = ...] and
    [client.FUTURES_URL = ...] of [__init__]. *)
Definition set_testnet_urls (c : Client) : Client :=
  {| client_api_key := client_api_key c;
     client_api_secret := client_api_secret c;
     client_testnet := client_testnet c;
     API_URL := testnet_url;
     FUTURES_URL := testnet_url |}.

Definition _test_connection (self : BasicBot) : M unit :=
  try_except
    (log_api_request "ping" ∅;;
     ping_result ← vendor "futures_ping" ∅ (futures_ping (client self));
     log_api_response "ping" ping_result;;
     log_api_request "account_info" ∅;;
     account_info ← vendor "futures_account" ∅ (futures_account (client self));
     balance ← eval (get_default account_info "totalWalletBalance" (VStr "N/A"));
     log_api_response "account_info"
       (VDict {[ "status" := VStr "success"; "totalWalletBalance" := balance ]});;
     logger_log INFO (Text "‚úÖ API connection successful"))
    [(is_api_exception, λ e, log_error e "API Connection Test";; raise e)].

Definition BasicBot_init (api_key api_secret : string) (testnet : bool) : M BasicBot :=
  TradingBotLogger_init "trading_bot.log";;
  try_except
    (c ← vendor "Client"
           {[ "api_key" := VStr api_key; "api_secret" := VStr api_secret;
              "testnet" := VBool testnet ]}
           (Client_new api_key api_secret testnet);
     let c := if testnet then set_testnet_urls c else c in
     let self := {| client := c |} in
     logger_log INFO (Text "Trading Bot initialized successfully");;
     _test_connection self;;
     mret self)
    [(is_exception, λ e, log_error e "Bot Initialization";; raise e)].

Definition get_account_balance (self : BasicBot) : M value :=
  try_except
    (log_api_request "futures_account" ∅;;
     account_info ← vendor "futures_account" ∅ (futures_account (client self));
     total ← eval (get_default account_info "totalWalletBalance" (VStr "0"));
     available ← eval (get_default account_info "availableBalance" (VStr "0"));
     unrealized ← eval (get_default account_info "totalUnrealizedProfit" (VStr "0"));
     let balance_info :=
       VDict {[ "totalWalletBalance" := total;
                "availableBalance" := available;
                "totalUnrealizedProfit" := unrealized ]} in
     log_api_response "futures_account" balance_info;;
     mret balance_info)
    [(is_api_exception, λ e, log_error e "Get Account Balance";; raise e)].

(** The loop [for s in symbols: if s['symbol'] == symbol: symbol_info = s;
    break], started with [symbol_info = None]. *)
Fixpoint find_symbol (symbols : list value) (symbol : string) : Result (option value) :=
  match symbols with
  | [] => Ok None
  | s :: rest =>
      name ← subscript s "symbol";
      if eq_str name symbol then Ok (Some s) else find_symbol rest symbol
  end.

(** [next((f[field] for f in filters if f['filterType'] == 'LOT_SIZE'),
    'N/A')]. *)
Fixpoint first_lot_size (field : string) (filters : list value) : Result value :=
  match filters with
  | [] => Ok (VStr "N/A")
  | f :: rest =>
      ty ← subscript f "filterType";
      if eq_str ty "LOT_SIZE" then subscript f field else first_lot_size field rest
  end.

Definition get_symbol_info (self : BasicBot) (symbol : string) : M value :=
  try_except
    (log_api_request "futures_symbol_ticker" {[ "symbol" := VStr symbol ]};;
     ticker ← vendor "futures_symbol_ticker" {[ "symbol" := VStr symbol ]}
                (futures_symbol_ticker (client self) {[ "symbol" := VStr symbol ]});
     log_api_request "futures_exchange_info" ∅;;
     exchange_info ← vendor "futures_exchange_info" ∅
                       (futures_exchange_info (client self));
     symbols ← eval (listing ← subscript exchange_info "symbols";
                     iterate listing);
     found ← eval (find_symbol symbols symbol);
     match found with
     | None => raise (Exn ValueError ("Symbol " +:+ symbol +:+ " not found"))
     | Some symbol_info =>
         if negb (truthy symbol_info)
         then raise (Exn ValueError ("Symbol " +:+ symbol +:+ " not found"))
         else
           price ← eval (subscript ticker "price");
           status ← eval (subscript symbol_info "status");
           baseAsset ← eval (subscript symbol_info "baseAsset");
           quoteAsset ← eval (subscript symbol_info "quoteAsset");
           minQty ← eval (filters ← subscript symbol_info "filters";
                          items ← iterate filters;
                          first_lot_size "minQty" items);
           stepSize ← eval (filters ← subscript symbol_info "filters";
                            items ← iterate filters;
                            first_lot_size "stepSize" items);
           let result :=
             VDict {[ "symbol" := VStr symbol;
                      "price" := price;
                      "status" := status;
                      "baseAsset" := baseAsset;
                      "quoteAsset" := quoteAsset;
                      "minQty" := minQty;
                      "stepSize" := stepSize ]} in
           log_api_response "symbol_info" result;;
           mret result
     end)
    [(is_api_exception,
      λ e, log_error e ("Get Symbol Info for " +:+ symbol);; raise e)].

(** The [order_params] of [place_market_order]. *)
Definition market_order_params (symbol side : string) (quantity : float)
    (timestamp : Z) : dict :=
  {[ "symbol" := VStr symbol;
     "side" := VStr (upper side);
     "type" := VStr FUTURE_ORDER_TYPE_MARKET;
     "quantity" := VFloat quantity;
     "timestamp" := VInt timestamp ]}.

(** The context text of its error record. *)
Definition market_order_context (symbol side : string) (quantity : float) : string :=
  "Market Order " +:+ side +:+ " " +:+ str_of_float quantity +:+ " " +:+ symbol.

Definition place_market_order (self : BasicBot) (symbol side : string)
    (quantity : float) : M value :=
  let context := market_order_context symbol side quantity in
  try_except
    (timestamp ← now_ms;
     let order_params := market_order_params symbol side quantity timestamp in
     log_api_request "futures_create_order" order_params;;
     order ← vendor "futures_create_order" order_params
               (futures_create_order (client self) order_params);
     log_api_response "futures_create_order" order;;
     log_order_execution order;;
     mret order)
    [(is_order_exception, λ e, log_error e context;; raise e);
     (is_api_exception, λ e, log_error e context;; raise e)].

(** The [order_params] of [place_limit_order]. *)
Definition limit_order_params (symbol side : string) (quantity price : float)
    (timestamp : Z) : dict :=
  {[ "symbol" := VStr symbol;
     "side" := VStr (upper side);
     "type" := VStr FUTURE_ORDER_TYPE_LIMIT;
     "quantity" := VFloat quantity;
     "price" := VFloat price;
     "timeInForce" := VStr TIME_IN_FORCE_GTC;
     "timestamp" := VInt timestamp ]}.

Definition limit_order_context (symbol side : string) (quantity price : float) : string :=
  "Limit Order " +:+ side +:+ " " +:+ str_of_float quantity +:+ " " +:+ symbol
    +:+ " @ " +:+ str_of_float price.

Definition place_limit_order (self : BasicBot) (symbol side : string)
    (quantity price : float) : M value :=
  let context := limit_order_context symbol side quantity price in
  try_except
    (timestamp ← now_ms;
     let order_params := limit_order_params symbol side quantity price timestamp in
     log_api_request "futures_create_order" order_params;;
     order ← vendor "futures_create_order" order_params
               (futures_create_order (client self) order_params);
     log_api_response "futures_create_order" order;;
     log_order_execution order;;
     mret order)
    [(is_order_exception, λ e, log_error e context;; raise e);
     (is_api_exception, λ e, log_error e context;; raise e)].

(** The [order_params] of [place_stop_limit_order]. *)
Definition stop_limit_order_params (symbol side : string)
    (quantity price stop_price : float) (timestamp : Z) : dict :=
  {[ "symbol" := VStr symbol;
     "side" := VStr (upper side);
     "type" := VStr FUTURE_ORDER_TYPE_STOP;
     "quantity" := VFloat quantity;
     "price" := VFloat price;
     "stopPrice" := VFloat stop_price;
     "timeInForce" := VStr TIME_IN_FORCE_GTC;
     "timestamp" := VInt timestamp ]}.

Definition stop_limit_order_context (symbol side : string)
    (quantity price stop_price : float) : string :=
  "Stop-Limit Order " +:+ side +:+ " " +:+ str_of_float quantity +:+ " " +:+ symbol
    +:+ " @ " +:+ str_of_float price
    +:+ " (stop: " +:+ str_of_float stop_price +:+ ")".

Definition place_stop_limit_order (self : BasicBot) (symbol side : string)
    (quantity price stop_price : float) : M value :=
  let context := stop_limit_order_context symbol side quantity price stop_price in
  try_except
    (timestamp ← now_ms;
     let order_params :=
       stop_limit_order_params symbol side quantity price stop_price timestamp in
     log_api_request "futures_create_order" order_params;;
     order ← vendor "futures_create_order" order_params
               (futures_create_order (client self) order_params);
     log_api_response "futures_create_order" order;;
     log_order_execution order;;
     mret order)
    [(is_order_exception, λ e, log_error e context;; raise e);
     (is_api_exception, λ e, log_error e context;; raise e)].

Definition cancel_order (self : BasicBot) (symbol order_id : string) : M value :=
  try_except
    (let cancel_params : dict :=
       {[ "symbol" := VStr symbol; "orderId" := VStr order_id ]} in
     log_api_request "futures_cancel_order" cancel_params;;
     result ← vendor "futures_cancel_order" cancel_params
                (futures_cancel_order (client self) cancel_params);
     log_api_response "futures_cancel_order" result;;
     mret result)
    [(is_api_exception,
      λ e, log_error e ("Cancel Order " +:+ order_id +:+ " for " +:+ symbol);;
           raise e)].

(** [symbol] is [None] or a string; [if symbol:] and [symbol or ...] test
    its truth value. *)
Definition symbol_given (symbol : option string) : option string :=
  match symbol with
  | Some s => if truthy (VStr s) then Some s else None
  | None => None
  end.

Definition get_open_orders (self : BasicBot) (symbol : option string) : M value :=
  try_except
    (let params : dict :=
       match symbol_given symbol with
       | Some s => <[ "symbol" := VStr s ]> ∅
       | None => ∅
       end in
     log_api_request "futures_get_open_orders" params;;
     orders ← vendor "futures_get_open_orders" params
                (futures_get_open_orders (client self) params);
     count ← eval (len orders);
     log_api_response "futures_get_open_orders"
       (VDict {[ "count" := VInt count ]});;
     mret orders)
    [(is_api_exception,
      λ e, log_error e
             ("Get Open Orders for "
                +:+ default "all symbols" (symbol_given symbol));;
           raise e)].

Definition get_order_status (self : BasicBot) (symbol order_id : string) : M value :=
  try_except
    (let params : dict :=
       {[ "symbol" := VStr symbol; "orderId" := VStr order_id ]} in
     log_api_request "futures_get_order" params;;
     order ← vendor "futures_get_order" params
               (futures_get_order (client self) params);
     log_api_response "futures_get_order" order;;
     mret order)
    [(is_api_exception,
      λ e, log_error e ("Get Order Status " +:+ order_id +:+ " for " +:+ symbol);;
           raise e)].

(** ** The eight operations as one family *)

(** A call of a method of the facade with its arguments, to state what
    holds of all of them. *)
Inductive operation : Type :=
  | op_get_account_balance
  | op_get_symbol_info (symbol : string)
  | op_place_market_order (symbol side : string) (quantity : float)
  | op_place_limit_order (symbol side : string) (quantity price : float)
  | op_place_stop_limit_order (symbol side : string) (quantity price stop_price : float)
  | op_cancel_order (symbol order_id : string)
  | op_get_open_orders (symbol : option string)
  | op_get_order_status (symbol order_id : string).

Definition perform (self : BasicBot) (op : operation) : M value :=
  match op with
  | op_get_account_balance => get_account_balance self
  | op_get_symbol_info symbol => get_symbol_info self symbol
  | op_place_market_order symbol side quantity =>
      place_market_order self symbol side quantity
  | op_place_limit_order symbol side quantity price =>
      place_limit_order self symbol side quantity price
  | op_place_stop_limit_order symbol side quantity price stop_price =>
      place_stop_limit_order self symbol side quantity price stop_price
  | op_cancel_order symbol order_id => cancel_order self symbol order_id
  | op_get_open_orders symbol => get_open_orders self symbol
  | op_get_order_status symbol order_id => get_order_status self symbol order_id
  end.

(** ** The shape shared by the pass-through methods *)

(** Log the request, call the vendor method, then either record what
    [after] says and return the response, or record the error when the
    clause [caught] matches and raise it again. *)
Definition round_trip (method : string) (params : dict)
    (call : X → Result value * X) (caught : exn → bool) (context : string)
    (after : value → list event) (w : World) : Result value * World :=
  match call (env w) with
  | (Ok response, x) =>
      (Ok response,
       {| env := x; handlers := handlers w;
          trace := trace w
                   ++ [Log INFO (ApiRequest method params); Call method params]
                   ++ after response |})
  | (Raise e, x) =>
      (Raise e,
       {| env := x; handlers := handlers w;
          trace := trace w
                   ++ [Log INFO (ApiRequest method params); Call method params]
                   ++ (if caught e
                       then [Log ERROR (ErrorMsg context (exn_str e))]
                       else []) |})
  end.

(** What an order placement records after a response. *)
Definition order_placed (order : value) : list event :=
  [Log INFO (ApiResponse "futures_create_order" order);
   Log INFO (OrderExecuted order)].

(** The two [except] clauses of the order placements taken together. *)
Definition is_vendor_exception (e : exn) : bool :=
  is_order_exception e || is_api_exception e.

(** ** Words of the specification about a trace and about exchange data *)

(** Exactly one request record and one response record, under the same
    operation name. *)
Definition one_matching_pair (tr : list event) : Prop :=
  ∃ name : string, requests_of tr = [name] ∧ responses_of tr = [name].

(** [s] is the instrument of [exchange_info] that matches [symbol]: the
    first entry of its list whose [symbol] field is [symbol]. *)
Definition matching_instrument (exchange_info : value) (symbol : string)
    (s : value) : Prop :=
  ∃ listing before after,
    subscript exchange_info "symbols" = Ok listing
    ∧ iterate listing = Ok (before ++ s :: after)
    ∧ Forall (λ s', ∃ name, subscript s' "symbol" = Ok name
                            ∧ eq_str name symbol = false) before
    ∧ subscript s "symbol" = Ok (VStr symbol).




(** The not-found condition of [get_symbol_info]. *)
Definition not_found (symbol : string) : exn :=
  Exn ValueError ("Symbol " +:+ symbol +:+ " not found").

(** What [get_symbol_info] computes from the two responses, once it has
    them: the scan of the instrument list, the not-found test, and the
    result mapping. *)
Definition symbol_info_result (symbol : string) (ticker exchange_info : value)
    : Result value :=
  listing ← subscript exchange_info "symbols";
  symbols ← iterate listing;
  found ← find_symbol symbols symbol;
  match found with
  | None => Raise (not_found symbol)
  | Some symbol_info =>
      if negb (truthy symbol_info) then Raise (not_found symbol)
      else
        price ← subscript ticker "price";
        status ← subscript symbol_info "status";
        baseAsset ← subscript symbol_info "baseAsset";
        quoteAsset ← subscript symbol_info "quoteAsset";
        filters ← subscript symbol_info "filters";
        items ← iterate filters;
        minQty ← first_lot_size "minQty" items;
        stepSize ← first_lot_size "stepSize" items;
        Ok (VDict {[ "symbol" := VStr symbol;
                     "price" := price;
                     "status" := status;
                     "baseAsset" := baseAsset;
                     "quoteAsset" := quoteAsset;
                     "minQty" := minQty;
                     "stepSize" := stepSize ]})
  end.

(** The error record an [except BinanceAPIException] clause writes, if
    the clause matches. *)
Definition api_error_record (e : exn) (context : string) : list event :=
  if is_api_exception e then [Log ERROR (ErrorMsg context (exn_str e))] else [].

(** ** Two sentences of the specification, read literally *)

(** "Every successful operation produces exactly one request-log entry
    and one response-log entry with matching operation names." *)
Definition every_operation_logs_one_pair : Prop :=
  ∀ (self : BasicBot) (op : operation) (w w' : World) (v : value),
    perform self op w = (Ok v, w') →
    ∃ added, trace w' = trace w ++ added ∧ one_matching_pair added.


End Facade.

(** ** validate_input *)

(** The [type] objects the callers pass as [input_type]. *)
Inductive input_type : Type := type_str | type_float.

Definition type_name (t : input_type) : string :=
  match t with
  | type_str => "str"
  | type_float => "float"
  end.

(** What [input(prompt)] meets on standard input: a line, or the user's
    interrupt.  The end of the list is the end of the input. *)
Inductive console_event : Type :=
  | Line (user_input : string)
  | KeyboardInterrupt.

(** What is written to standard output. *)
Inductive output : Type :=
  | Prompt (text : string)
  | Printed (text : string).

(** How a call that talks to the console ends: it returns, the process
    exits through [sys.exit], or an exception leaves it. *)
Inductive outcome (A : Type) : Type :=
  | Returned (a : A)
  | Exited (code : Z)
  | Raised (e : exn).

Arguments Returned {A} a.
Arguments Exited {A} code.
Arguments Raised {A} e.

(** [input_type(user_input)], or the stripped upper-case text for [str];
    [None] is the [ValueError] of a failed conversion. *)
Definition convert `{!FloatText} (t : input_type) (user_input : string) : option value :=
  match t with
  | type_str => Some (VStr (upper (strip user_input)))
  | type_float => VFloat <$> float_of_str user_input
  end.

(** The loop of [validate_input]: one iteration per line read. *)
Fixpoint validate_input `{!FloatText} (prompt : string) (t : input_type)
    (validation_func : option (value → bool))
    (stdin : list console_event) (stdout : list output)
    : outcome value * list console_event * list output :=
  match stdin with
  | [] =>
      (Raised (Exn EOFError "EOF when reading a line"), [], stdout ++ [Prompt prompt])
  | KeyboardInterrupt :: rest =>
      (Exited 0, rest, stdout ++ [Prompt prompt; Printed (String (ascii_of_nat 10) "üëã Goodbye!")])
  | Line user_input :: rest =>
      match convert t user_input with
      | None =>
          validate_input prompt t validation_func rest
            (stdout ++ [Prompt prompt;
                        Printed ("‚ùå Please enter a valid " +:+ type_name t)])
      | Some v =>
          match validation_func with
          | Some f =>
              if negb (f v)
              then validate_input prompt t validation_func rest
                     (stdout ++ [Prompt prompt;
                                 Printed "‚ùå Invalid input. Please try again."])
              else (Returned v, rest, stdout ++ [Prompt prompt])
          | None => (Returned v, rest, stdout ++ [Prompt prompt])
          end
      end
  end.

(** [lambda x: x > 0] on what [float] or [int] produced. *)
Definition positive (x : value) : bool :=
  match x with
  | VFloat f => PrimFloat.ltb 0%float f
  | VInt n => (0 <? n)%Z
  | VBool b => b
  | _ => false
  end.

(** [lambda x: x in ["BUY", "SELL"]]. *)
Definition buy_or_sell (x : value) : bool := eq_str x "BUY" || eq_str x "SELL".

Definition ask_price `{!FloatText} :=
  validate_input "Enter price: " type_float (Some positive).
Definition ask_limit_price `{!FloatText} :=
  validate_input "Enter limit price: " type_float (Some positive).
Definition ask_stop_price `{!FloatText} :=
  validate_input "Enter stop price: " type_float (Some positive).

(** The other prompts of the order menus. *)
Definition ask_symbol `{!FloatText} :=
  validate_input "Enter symbol (e.g., BTCUSDT): " type_str None.
Definition ask_side `{!FloatText} :=
  validate_input "Enter side (BUY/SELL): " type_str (Some buy_or_sell).

(** Menu entry 4 of [main]: the line read for the symbol, stripped and in
    upper case, or [None] when nothing is left of it. *)
Definition open_orders_symbol (user_input : string) : option string :=
  let symbol := upper (strip user_input) in
  if truthy (VStr symbol) then Some symbol else None.

(** ** The command line of main *)

(** The part of [argparse] that [main] uses: optional arguments named by
    option strings, with the actions [store] (one value follows),
    [store_true] (no value; the constant [True]) and the [help] action
    that every parser adds. *)
Inductive action : Type := store | store_true | help.

Record argument : Type := {
  option_strings : list string;
  dest : string;
  act : action;
  required : bool;
  (** the default put in the namespace; [None] when the attribute is
      suppressed *)
  dflt : option value
}.

(** The parser [main] builds: [-h/--help] comes with the parser, the
    three others are its [add_argument] calls. *)
Definition main_parser : list argument :=
  [ {| option_strings := ["-h"; "--help"]; dest := "help"; act := help;
       required := false; dflt := None |};
    {| option_strings := ["--api-key"]; dest := "api_key"; act := store;
       required := true; dflt := Some VNone |};
    {| option_strings := ["--api-secret"]; dest := "api_secret"; act := store;
       required := true; dflt := Some VNone |};
    {| option_strings := ["--testnet"]; dest := "testnet"; act := store_true;
       required := false; dflt := Some (VBool true) |} ].

(** How [parse_args] ends: with a namespace, or by leaving the process
    (a usage error or the help text). *)
Inductive parsed : Type :=
  | Namespace (attributes : dict)
  | SystemExit.

(** How one command-line string is read. *)
Inductive token_class : Type :=
  | Positional
  | Optional (a : argument) (explicit_arg : option string)
  | Unknown
  | Ambiguous.

Definition lookup_option (parser : list argument) (s : string) : option argument :=
  List.find (λ a, bool_decide (s ∈ option_strings a)) parser.

(** [s.split('=', 1)]: the text before the first equals sign, and the text
    after it when there is one. *)
Fixpoint split_eq (s : string) : string * option string :=
  match s with
  | EmptyString => (EmptyString, None)
  | String a rest =>
      if bool_decide (a = "="%char) then (EmptyString, Some rest)
      else let '(name, arg) := split_eq rest in (String a name, arg)
  end.

Definition is_digit (a : ascii) : bool :=
  let n := nat_of_ascii a in (48 <=? n)%nat && (n <=? 57)%nat.

Fixpoint all_digits (s : string) : bool :=
  match s with
  | EmptyString => true
  | String a rest => is_digit a && all_digits rest
  end.

(** After the digits before the point: a point and at least one digit. *)
Fixpoint fraction_from (s : string) : bool :=
  match s with
  | EmptyString => false
  | String a rest =>
      if bool_decide (a = "."%char)
      then negb (bool_decide (rest = "")) && all_digits rest
      else is_digit a && fraction_from rest
  end.

(** The parser's pattern for negative numbers: a minus sign and digits,
    or a minus sign, digits, a point and digits. *)
Definition negative_number (s : string) : bool :=
  match s with
  | String a rest =>
      bool_decide (a = "-"%char)
      && ((negb (bool_decide (rest = "")) && all_digits rest) || fraction_from rest)
  | EmptyString => false
  end.

Fixpoint has_space (s : string) : bool :=
  match s with
  | EmptyString => false
  | String a rest => bool_decide (a = " "%char) || has_space rest
  end.

(** The option strings an abbreviated [arg_string] may stand for. *)
Definition option_tuples (parser : list argument) (arg_string : string)
    : list (argument * option string) :=
  if String.prefix "--" arg_string then
    let '(option_prefix, explicit_arg) := split_eq arg_string in
    a ← parser;
    os ← option_strings a;
    if String.prefix option_prefix os then [(a, explicit_arg)] else []
  else
    let short_option_prefix := String.substring 0 2 arg_string in
    let short_explicit_arg :=
      String.substring 2 (String.length arg_string - 2) arg_string in
    a ← parser;
    os ← option_strings a;
    if bool_decide (os = short_option_prefix) then [(a, Some short_explicit_arg)]
    else if String.prefix arg_string os then [(a, None)]
    else [].

Definition parse_optional (parser : list argument) (arg_string : string) : token_class :=
  if bool_decide (arg_string = "") then Positional
  else if negb (String.prefix "-" arg_string) then Positional
  else
    match lookup_option parser arg_string with
    | Some a => Optional a None
    | None =>
        if bool_decide (String.length arg_string = 1) then Positional
        else
          let by_abbreviation :=
            match option_tuples parser arg_string with
            | [(a, explicit_arg)] => Optional a explicit_arg
            | _ :: _ :: _ => Ambiguous
            | [] =>
                if negative_number arg_string then Positional
                else if has_space arg_string then Positional
                else Unknown
            end in
          match split_eq arg_string with
          | (option_string, Some explicit_arg) =>
              match lookup_option parser option_string with
              | Some a => Optional a (Some explicit_arg)
              | None => by_abbreviation
              end
          | (_, None) => by_abbreviation
          end
    end.

(** The namespace before any argument is read: every default that is not
    suppressed. *)
Definition defaults (parser : list argument) : dict :=
  foldr (λ a ns, match dflt a with Some d => <[ dest a := d ]> ns | None => ns end)
        ∅ parser.

(** After the last argument: every required argument must have been
    seen. *)
Definition finish (parser : list argument) (ns : dict) (seen : list string) : parsed :=
  if forallb (λ a, negb (required a) || bool_decide (dest a ∈ seen)) parser
  then Namespace ns
  else SystemExit.

(** The arguments are read from left to right.  A string that is no
    option and no value of one is an unrecognized argument; so is
    everything after a bare [--]. *)
Fixpoint consume (parser : list argument) (argv : list string) (ns : dict)
    (seen : list string) : parsed :=
  match argv with
  | [] => finish parser ns seen
  | arg_string :: rest =>
      if bool_decide (arg_string = "--") then
        match rest with
        | [] => finish parser ns seen
        | _ :: _ => SystemExit
        end
      else
        match parse_optional parser arg_string with
        | Optional a explicit_arg =>
            match act a, explicit_arg with
            | help, _ => SystemExit
            | store_true, None =>
                consume parser rest (<[ dest a := VBool true ]> ns) (dest a :: seen)
            | store_true, Some _ => SystemExit
            | store, Some v =>
                consume parser rest (<[ dest a := VStr v ]> ns) (dest a :: seen)
            | store, None =>
                match rest with
                | [] => SystemExit
                | v :: rest' =>
                    if bool_decide (v = "--") then
                      match rest' with
                      | [w] => finish parser (<[ dest a := VStr w ]> ns) (dest a :: seen)
                      | _ => SystemExit
                      end
                    else
                      match parse_optional parser v with
                      | Positional =>
                          consume parser rest' (<[ dest a := VStr v ]> ns) (dest a :: seen)
                      | _ => SystemExit
                      end
                end
            end
        | Positional | Unknown | Ambiguous => SystemExit
        end
  end.

Definition parse_args (parser : list argument) (argv : list string) : parsed :=
  consume parser argv (defaults parser) [].

(** [getattr(args, name)]. *)
Definition attribute (args : dict) (name : string) : Result value :=
  match args !! name with
  | Some v => Ok v
  | None =>
      Raise (Exn AttributeError
               ("'Namespace' object has no attribute '" +:+ name +:+ "'"))
  end.

(** [main] from the parsed arguments to the facade:
    [bot = BasicBot(args.api_key, args.api_secret, args.testnet)].  The
    parser stores the two credentials as strings, which is what
    [BasicBot_init] takes; the last case of the match is there for
    totality and does not arise (see [parse_args_credentials]). *)
Definition main_bot {X : Type} `{!Exchange X} (args : dict) : M BasicBot :=
  api_key ← eval (attribute args "api_key");
  api_secret ← eval (attribute args "api_secret");
  testnet ← eval (attribute args "testnet");
  match api_key, api_secret with
  | VStr k, VStr s => BasicBot_init k s (truthy testnet)
  | _, _ => raise (Exn TypeError "API key and secret must be strings")
  end.

(** ** A scripted exchange, to run the model on concrete inputs *)

(** The state is the list of the results the vendor calls will deliver,
    in order; a call takes the next one.  When the script is used up the
    call fails as an unreachable network would. *)
Definition script : Type := list (Result value).

Definition deliver (s : script) : Result value * script :=
  match s with
  | r :: rest => (r, rest)
  | [] => (Raise (Exn (OtherException "ConnectionError") "connection refused"), [])
  end.

Global Instance scripted_exchange : Exchange script := {|
  Client_new api_key api_secret testnet s :=
    (Ok {| client_api_key := api_key;
           client_api_secret := api_secret;
           client_testnet := testnet;
           API_URL := "https://api.binance.com/api";
           FUTURES_URL := "https://fapi.binance.com/fapi" |}, s);
  futures_ping _ := deliver;
  futures_account _ := deliver;
  futures_symbol_ticker _ _ := deliver;
  futures_exchange_info _ := deliver;
  futures_create_order _ _ := deliver;
  futures_cancel_order _ _ := deliver;
  futures_get_open_orders _ _ := deliver;
  futures_get_order _ _ := deliver;
  time_ms _ := 1751328000000%Z
|}.

(** The texts of the few floats the examples use. *)
Global Instance sample_floats : FloatText := {|
  float_of_str s :=
    if bool_decide (s = "0.01") then Some 0x1.47ae147ae147bp-7%float
    else if bool_decide (s = "50000") then Some 50000%float
    else if bool_decide (s = "49000") then Some 49000%float
    else if bool_decide (s = "0") then Some 0%float
    else if bool_decide (s = "-1") then Some (-1)%float
    else if bool_decide (s = "nan") then Some nan
    else None;
  str_of_float x :=
    if PrimFloat.eqb x 0x1.47ae147ae147bp-7%float then "0.01"
    else if PrimFloat.eqb x 50000%float then "50000.0"
    else if PrimFloat.eqb x 49000%float then "49000.0"
    else if PrimFloat.eqb x 0%float then "0.0"
    else if PrimFloat.eqb x (-1)%float then "-1.0"
    else "nan"
|}.

Definition start (s : script) : @World script :=
  {| env := s; handlers := []; trace := [] |}.

(** A facade as [BasicBot_init] leaves it on the testnet. *)
Definition sample_bot : BasicBot :=
  {| client := {| client_api_key := "key";
                  client_api_secret := "secret";
                  client_testnet := true;
                  API_URL := testnet_url;
                  FUTURES_URL := testnet_url |} |}.

(** Sample responses of the exchange. *)
Definition sample_account : value :=
  VDict {[ "totalWalletBalance" := VStr "15000.00000000";
           "availableBalance" := VStr "14000.00000000";
           "totalUnrealizedProfit" := VStr "0.00000000";
           "canTrade" := VBool true ]}.

Definition sample_ticker : value :=
  VDict {[ "symbol" := VStr "BTCUSDT"; "price" := VStr "50000.10" ]}.

Definition sample_price_filter : value :=
  VDict {[ "filterType" := VStr "PRICE_FILTER"; "tickSize" := VStr "0.10" ]}.

Definition sample_lot_size : value :=
  VDict {[ "filterType" := VStr "LOT_SIZE";
           "minQty" := VStr "0.001";
           "stepSize" := VStr "0.001" ]}.

Definition sample_eth : value :=
  VDict {[ "symbol" := VStr "ETHUSDT";
           "status" := VStr "TRADING";
           "baseAsset" := VStr "ETH";
           "quoteAsset" := VStr "USDT";
           "filters" := VList [] ]}.

Definition sample_btc : value :=
  VDict {[ "symbol" := VStr "BTCUSDT";
           "status" := VStr "TRADING";
           "baseAsset" := VStr "BTC";
           "quoteAsset" := VStr "USDT";
           "filters" := VList [sample_price_filter; sample_lot_size] ]}.

Definition sample_exchange_info : value :=
  VDict {[ "timezone" := VStr "UTC";
           "symbols" := VList [sample_eth; sample_btc] ]}.

Definition sample_order : value :=
  VDict {[ "orderId" := VInt 4242; "status" := VStr "NEW";
           "symbol" := VStr "BTCUSDT" ]}.

Definition invalid_symbol : exn :=
  Exn BinanceAPIException "APIError(code=-1121): Invalid symbol.".

Definition rejected : exn :=
  Exn BinanceOrderException "Margin is insufficient.".

Definition bad_key : exn :=
  Exn BinanceAPIException "APIError(code=-2015): Invalid API-key, IP, or permissions for action.".

(** ** What an operation logs when it fails *)

Section FailureWords.

Context `{!FloatText}.

(** The context text of the error record of each operation. *)
Definition error_context (op : operation) : string :=
  match op with
  | op_get_account_balance => "Get Account Balance"
  | op_get_symbol_info symbol => "Get Symbol Info for " +:+ symbol
  | op_place_market_order symbol side quantity =>
      market_order_context symbol side quantity
  | op_place_limit_order symbol side quantity price =>
      limit_order_context symbol side quantity price
  | op_place_stop_limit_order symbol side quantity price stop_price =>
      stop_limit_order_context symbol side quantity price stop_price
  | op_cancel_order symbol order_id =>
      "Cancel Order " +:+ order_id +:+ " for " +:+ symbol
  | op_get_open_orders symbol =>
      "Get Open Orders for " +:+ default "all symbols" (symbol_given symbol)
  | op_get_order_status symbol order_id =>
      "Get Order Status " +:+ order_id +:+ " for " +:+ symbol
  end.

(** The exceptions the [except] clauses of each operation name. *)
Definition catches (op : operation) (e : exn) : bool :=
  match op with
  | op_place_market_order _ _ _
  | op_place_limit_order _ _ _ _
  | op_place_stop_limit_order _ _ _ _ _ => is_vendor_exception e
  | _ => is_api_exception e
  end.

End FailureWords.

(** Every vendor call of a trace comes right after a request record that
    holds the same parameter mapping. *)
Definition announced (tr : list event) : Prop :=
  ∀ (i : nat) method kwargs,
    tr !! i = Some (Call method kwargs) →
    ∃ j name, i = S j ∧ tr !! j = Some (Log INFO (ApiRequest name kwargs)).


(** The records and calls one operation adds to the trace begin with a
    request record and the vendor call it announces; [get_symbol_info]
    may go on to a second such pair.  What follows holds no call. *)
Inductive operation_trace : nat → list event → Prop :=
  | one_call name method kwargs tail :
      calls_of tail = [] →
      operation_trace 1
        (Log INFO (ApiRequest name kwargs) :: Call method kwargs :: tail)
  | two_calls name1 method1 kwargs1 name2 method2 kwargs2 tail :
      calls_of tail = [] →
      operation_trace 2
        (Log INFO (ApiRequest name1 kwargs1) :: Call method1 kwargs1
         :: Log INFO (ApiRequest name2 kwargs2) :: Call method2 kwargs2 :: tail).

Section FirstCall.

Context {X : Type} `{!Exchange X}.

(** The first vendor call an operation makes in world [w] (the only one,
    for all but [get_symbol_info]). *)
Definition first_call (self : BasicBot) (op : operation) (w : @World X)
    : Result value * X :=
  match op with
  | op_get_account_balance => futures_account (client self) (env w)
  | op_get_symbol_info symbol =>
      futures_symbol_ticker (client self) {[ "symbol" := VStr symbol ]} (env w)
  | op_place_market_order symbol side quantity =>
      futures_create_order (client self)
        (market_order_params symbol side quantity (time_ms (env w))) (env w)
  | op_place_limit_order symbol side quantity price =>
      futures_create_order (client self)
        (limit_order_params symbol side quantity price (time_ms (env w))) (env w)
  | op_place_stop_limit_order symbol side quantity price stop_price =>
      futures_create_order (client self)
        (stop_limit_order_params symbol side quantity price stop_price
           (time_ms (env w))) (env w)
  | op_cancel_order symbol order_id =>
      futures_cancel_order (client self)
        {[ "symbol" := VStr symbol; "orderId" := VStr order_id ]} (env w)
  | op_get_open_orders symbol =>
      futures_get_open_orders (client self)
        (match symbol_given symbol with
         | Some s => <[ "symbol" := VStr s ]> ∅
         | None => ∅
         end) (env w)
  | op_get_order_status symbol order_id =>
      futures_get_order (client self)
        {[ "symbol" := VStr symbol; "orderId" := VStr order_id ]} (env w)
  end.

End FirstCall.


Section OutcomeWords.

Context {X : Type} `{!Exchange X} `{!FloatText}.

(** What a run of operation [op] from world [w] leaves behind, whatever
    its outcome: [run] is the result and the world after, [first] what the
    first vendor call did. *)
Definition outcome_facts (op : operation) (run : Result value * @World X)
    (first : Result value * X) (w : @World X) : Prop :=
  ∃ n added,
    handlers run.2 = handlers w
    ∧ trace run.2 = trace w ++ added
    ∧ operation_trace n added
    ∧ ((∀ symbol, op ≠ op_get_symbol_info symbol) → n = 1)
    ∧ (∀ e, run.1 = Raise e →
         errors_of added
         = (if catches op e then [(error_context op, exn_str e)] else [])
         ∧ responses_of added = [])
    ∧ (∀ e x, first = (Raise e, x) → run.1 = Raise e ∧ env run.2 = x ∧ n = 1).

End OutcomeWords.


(** The exceptions that reading a response can raise: the not-found
    [ValueError], a missing key, a value of the wrong kind. *)
Definition local_failure (e : exn) : Prop :=
  exn_cls e = ValueError ∨ exn_cls e = KeyError ∨ exn_cls e = TypeError.

(** ** Words about the lines validate_input reads *)

Section LineWords.

Context `{!FloatText}.

(** The value a line is accepted as: it converts, and the validation
    function, if there is one, holds of the converted value. *)
Definition accepts (t : input_type) (validation_func : option (value → bool))
    (user_input : string) : option value :=
  match convert t user_input with
  | Some v =>
      match validation_func with
      | Some f => if f v then Some v else None
      | None => Some v
      end
  | None => None
  end.

(** What is printed for a line that is not accepted. *)
Definition complaint (t : input_type) (user_input : string) : string :=
  match convert t user_input with
  | None => "‚ùå Please enter a valid " +:+ type_name t
  | Some _ => "‚ùå Invalid input. Please try again."
  end.

(** The prompts and complaints for a run of lines that are not
    accepted. *)
Definition complaints (prompt : string) (t : input_type) (bad : list string)
    : list output :=
  bad ≫= λ user_input, [Prompt prompt; Printed (complaint t user_input)].

End LineWords.


(** ** main: the interactive loop *)

(** [str(v)] as an f-string formats a value, and the text of
    [datetime.fromtimestamp(t / 1000)], which raises when [t] is no
    number or out of range.  Both are the interpreter's; the model takes
    them as given. *)
Class ValueText : Type := {
  str_of_value : value → string;
  time_text : value → Result string
}.

(** What can leave a block of [main] other than its end: an exception
    (all derive from [Exception]), the [KeyboardInterrupt] of [input], or
    the [SystemExit] of [sys.exit]. *)
Inductive signal : Type :=
  | sig_exception (e : exn)
  | sig_interrupt
  | sig_exit (code : Z).

Inductive step (A : Type) : Type :=
  | Next (a : A)
  | Leave (s : signal).

Arguments Next {A} a.
Arguments Leave {A} s.

(** [x in s] for strings: [x] occurs in [s] as a substring. *)
Fixpoint is_substring (x s : string) : bool :=
  String.prefix x s
  || match s with
     | EmptyString => false
     | String _ rest => is_substring x rest
     end.

(** [lambda x: x in "123456789"]. *)
Definition menu_choice (x : value) : bool :=
  match x with
  | VStr s => is_substring s "123456789"
  | _ => false
  end.

(** The text of a value that [validate_input] returned for the type
    [str], and the float of one it returned for the type [float]; the
    other cases do not arise. *)
Definition as_text (v : value) : string :=
  match v with
  | VStr s => s
  | _ => ""
  end.

Definition as_float (v : value) : float :=
  match v with
  | VFloat x => x
  | _ => 0%float
  end.

Definition newline : string := String (ascii_of_nat 10) "".

Section Main.

Context {X : Type} `{!Exchange X} `{!FloatText} `{!ValueText}.

(** The process: the world of the facade and the console. *)
Record Process : Type := {
  world : @World X;
  stdin : list console_event;
  stdout : list output
}.

Definition P (A : Type) : Type := Process → step A * Process.

Global Instance P_ret : MRet P := λ A a p, (Next a, p).

Global Instance P_bind : MBind P := λ A B f m p,
  match m p with
  | (Next a, p') => f a p'
  | (Leave s, p') => (Leave s, p')
  end.

(** [print(text)]. *)
Definition print (text : string) : P unit := λ p,
  (Next tt, {| world := world p; stdin := stdin p;
               stdout := stdout p ++ [Printed text] |}).

(** A call of a method of the facade. *)
Definition facade {A : Type} (m : M A) : P A := λ p,
  let '(r, w) := m (world p) in
  (match r with Ok a => Next a | Raise e => Leave (sig_exception e) end,
   {| world := w; stdin := stdin p; stdout := stdout p |}).

(** An expression evaluated inside a statement, such as a subscript in
    an f-string. *)
Definition calc {A : Type} (r : Result A) : P A := λ p,
  (match r with Ok a => Next a | Raise e => Leave (sig_exception e) end, p).

(** A call of [validate_input]. *)
Definition ask (prompt : string) (t : input_type)
    (validation_func : option (value → bool)) : P value := λ p,
  let '(o, rest, out) := validate_input prompt t validation_func (stdin p) (stdout p) in
  (match o with
   | Returned v => Next v
   | Exited code => Leave (sig_exit code)
   | Raised e => Leave (sig_exception e)
   end,
   {| world := world p; stdin := rest; stdout := out |}).

(** A bare [input(prompt)]. *)
Definition raw_input (prompt : string) : P string := λ p,
  match stdin p with
  | Line user_input :: rest =>
      (Next user_input,
       {| world := world p; stdin := rest; stdout := stdout p ++ [Prompt prompt] |})
  | KeyboardInterrupt :: rest =>
      (Leave sig_interrupt,
       {| world := world p; stdin := rest; stdout := stdout p ++ [Prompt prompt] |})
  | [] =>
      (Leave (sig_exception (Exn EOFError "EOF when reading a line")),
       {| world := world p; stdin := []; stdout := stdout p ++ [Prompt prompt] |})
  end.

(** [try: body except Exception as e: handler]. *)
Definition except_exception {A : Type} (body : P A) (handler : exn → P A) : P A :=
  λ p,
  match body p with
  | (Leave (sig_exception e), p') => handler e p'
  | other => other
  end.

(** [print(f"{label}{v[key]}")]. *)
Definition print_field (label : string) (v : value) (key : string) : P unit :=
  x ← calc (subscript v key);
  print (label +:+ str_of_value x).

Definition place_market_order_menu (bot : BasicBot) : P unit :=
  symbol ← ask "Enter symbol (e.g., BTCUSDT): " type_str None;
  side ← ask "Enter side (BUY/SELL): " type_str (Some buy_or_sell);
  quantity ← ask "Enter quantity: " type_float (Some positive);
  except_exception
    (order ← facade (place_market_order bot (as_text symbol) (as_text side)
                       (as_float quantity));
     print "‚úÖ Market order placed successfully!";;
     print_field "Order ID: " order "orderId";;
     print_field "Status: " order "status")
    (λ e, print ("‚ùå Error placing market order: " +:+ exn_str e)).

Definition place_limit_order_menu (bot : BasicBot) : P unit :=
  symbol ← ask "Enter symbol (e.g., BTCUSDT): " type_str None;
  side ← ask "Enter side (BUY/SELL): " type_str (Some buy_or_sell);
  quantity ← ask "Enter quantity: " type_float (Some positive);
  price ← ask "Enter price: " type_float (Some positive);
  except_exception
    (order ← facade (place_limit_order bot (as_text symbol) (as_text side)
                       (as_float quantity) (as_float price));
     print "‚úÖ Limit order placed successfully!";;
     print_field "Order ID: " order "orderId";;
     print_field "Status: " order "status")
    (λ e, print ("‚ùå Error placing limit order: " +:+ exn_str e)).

Definition place_stop_limit_order_menu (bot : BasicBot) : P unit :=
  symbol ← ask "Enter symbol (e.g., BTCUSDT): " type_str None;
  side ← ask "Enter side (BUY/SELL): " type_str (Some buy_or_sell);
  quantity ← ask "Enter quantity: " type_float (Some positive);
  price ← ask "Enter limit price: " type_float (Some positive);
  stop_price ← ask "Enter stop price: " type_float (Some positive);
  except_exception
    (order ← facade (place_stop_limit_order bot (as_text symbol) (as_text side)
                       (as_float quantity) (as_float price) (as_float stop_price));
     print "‚úÖ Stop-limit order placed successfully!";;
     print_field "Order ID: " order "orderId";;
     print_field "Status: " order "status")
    (λ e, print ("‚ùå Error placing stop-limit order: " +:+ exn_str e)).

(** The line printed for one open order. *)
Definition open_order_line (order : value) : Result string :=
  orderId ← subscript order "orderId";
  symbol ← subscript order "symbol";
  side ← subscript order "side";
  type ← subscript order "type";
  origQty ← subscript order "origQty";
  status ← subscript order "status";
  Ok ("ID: " +:+ str_of_value orderId +:+ " | " +:+ str_of_value symbol
        +:+ " | " +:+ str_of_value side +:+ " | " +:+ str_of_value type
        +:+ " | Qty: " +:+ str_of_value origQty
        +:+ " | Status: " +:+ str_of_value status).

(** [for order in orders: print(...)]. *)
Fixpoint print_open_orders (orders : list value) : P unit :=
  match orders with
  | [] => mret tt
  | order :: rest =>
      line ← calc (open_order_line order);
      print line;;
      print_open_orders rest
  end.

Definition view_open_orders_menu (bot : BasicBot) : P unit :=
  user_input ← raw_input "Enter symbol (or press Enter for all): ";
  let symbol := open_orders_symbol user_input in
  except_exception
    (orders ← facade (get_open_orders bot symbol);
     if truthy orders then
       count ← calc (len orders);
       print (newline +:+ "üìã Open Orders (" +:+ str_of_value (VInt count) +:+ "):");;
       items ← calc (iterate orders);
       print_open_orders items
     else print "üìã No open orders found.")
    (λ e, print ("‚ùå Error getting open orders: " +:+ exn_str e)).

Definition cancel_order_menu (bot : BasicBot) : P unit :=
  symbol ← ask "Enter symbol: " type_str None;
  order_id ← ask "Enter order ID: " type_str None;
  except_exception
    (result ← facade (cancel_order bot (as_text symbol) (as_text order_id));
     print ("‚úÖ Order " +:+ as_text order_id +:+ " cancelled successfully!");;
     print_field "Status: " result "status")
    (λ e, print ("‚ùå Error cancelling order: " +:+ exn_str e)).

Definition order_status_menu (bot : BasicBot) : P unit :=
  symbol ← ask "Enter symbol: " type_str None;
  order_id ← ask "Enter order ID: " type_str None;
  except_exception
    (order ← facade (get_order_status bot (as_text symbol) (as_text order_id));
     print (newline +:+ "üìä Order Status:");;
     print_field "ID: " order "orderId";;
     print_field "Symbol: " order "symbol";;
     print_field "Side: " order "side";;
     print_field "Type: " order "type";;
     print_field "Quantity: " order "origQty";;
     print_field "Filled: " order "executedQty";;
     print_field "Status: " order "status";;
     time ← calc (subscript order "time");
     text ← calc (time_text time);
     print ("Time: " +:+ text))
    (λ e, print ("‚ùå Error getting order status: " +:+ exn_str e)).

Definition symbol_info_menu (bot : BasicBot) : P unit :=
  symbol ← ask "Enter symbol: " type_str None;
  except_exception
    (info ← facade (get_symbol_info bot (as_text symbol));
     print (newline +:+ "üìä Symbol Information:");;
     print_field "Symbol: " info "symbol";;
     print_field "Current Price: " info "price";;
     print_field "Status: " info "status";;
     print_field "Base Asset: " info "baseAsset";;
     print_field "Quote Asset: " info "quoteAsset";;
     print_field "Min Quantity: " info "minQty";;
     print_field "Step Size: " info "stepSize")
    (λ e, print ("‚ùå Error getting symbol info: " +:+ exn_str e)).

(** [print(f"{label}{balance[key]} USDT")]. *)
Definition print_balance_field (label : string) (balance : value) (key : string)
    : P unit :=
  x ← calc (subscript balance key);
  print (label +:+ str_of_value x +:+ " USDT").

Definition account_balance_menu (bot : BasicBot) : P unit :=
  except_exception
    (balance ← facade (get_account_balance bot);
     print (newline +:+ "üí∞ Account Information:");;
     print_balance_field "Total Wallet Balance: " balance "totalWalletBalance";;
     print_balance_field "Available Balance: " balance "availableBalance";;
     print_balance_field "Unrealized PnL: " balance "totalUnrealizedProfit")
    (λ e, print ("‚ùå Error getting account balance: " +:+ exn_str e)).

(** The menu, as printed at each turn of the loop. *)
Definition menu_text : list string :=
  [newline +:+ "üìã Available Commands:";
   "1. Place Market Order";
   "2. Place Limit Order";
   "3. Place Stop-Limit Order";
   "4. View Open Orders";
   "5. Cancel Order";
   "6. Check Order Status";
   "7. Get Symbol Info";
   "8. View Account Balance";
   "9. Exit"].

Fixpoint print_all (lines : list string) : P unit :=
  match lines with
  | [] => mret tt
  | line :: rest => print line;; print_all rest
  end.

(** The [if]/[elif] chain on the choice: [true] to go round the loop
    again, [false] for [break].  A choice that is none of "1" to "9" does
    nothing. *)
Definition dispatch (bot : BasicBot) (choice : value) : P bool :=
  if eq_str choice "1" then place_market_order_menu bot;; mret true
  else if eq_str choice "2" then place_limit_order_menu bot;; mret true
  else if eq_str choice "3" then place_stop_limit_order_menu bot;; mret true
  else if eq_str choice "4" then view_open_orders_menu bot;; mret true
  else if eq_str choice "5" then cancel_order_menu bot;; mret true
  else if eq_str choice "6" then order_status_menu bot;; mret true
  else if eq_str choice "7" then symbol_info_menu bot;; mret true
  else if eq_str choice "8" then account_balance_menu bot;; mret true
  else if eq_str choice "9" then
    print "üëã Thank you for using the Trading Bot!";; mret false
  else mret true.

(** One turn of [while True]. *)
Definition menu_turn (bot : BasicBot) : P bool :=
  print_all menu_text;;
  choice ← ask "Select an option (1-9): " type_str (Some menu_choice);
  dispatch bot choice.

(** The loop, with a bound on its turns; [None] when the bound is
    reached. *)
Fixpoint menu_loop (turns : nat) (bot : BasicBot) (p : Process)
    : option (step unit * Process) :=
  match turns with
  | O => None
  | S turns' =>
      match menu_turn bot p with
      | (Next true, p') => menu_loop turns' bot p'
      | (Next false, p') => Some (Next tt, p')
      | (Leave s, p') => Some (Leave s, p')
      end
  end.

(** The [try] block of [main] up to the loop. *)
Definition main_startup (args : dict) : P BasicBot :=
  bot ← facade (main_bot args);
  balance ← facade (get_account_balance bot);
  print_balance_field "üí∞ Account Balance: " balance "totalWalletBalance";;
  print_balance_field "üí∞ Available Balance: " balance "availableBalance";;
  print_balance_field "üìä Unrealized PnL: " balance "totalUnrealizedProfit";;
  print "";;
  mret bot.

(** How the process ends: [main] returns, [sys.exit(code)], or the exit
    of [parse_args]. *)
Inductive termination : Type :=
  | returns
  | exits (code : Z)
  | usage_exit.

(** The two [except] clauses of [main]. *)
Definition main_handlers (r : step unit * Process) : termination * Process :=
  match r with
  | (Next _, p) => (returns, p)
  | (Leave sig_interrupt, p) =>
      (returns, (print (newline +:+ "üëã Goodbye!") p).2)
  | (Leave (sig_exception e), p) =>
      (exits 1, (print ("‚ùå Fatal error: " +:+ exn_str e) p).2)
  | (Leave (sig_exit code), p) => (exits code, p)
  end.

Definition equals_line : string :=
  "==================================================".

(** [main], with a bound on the turns of its loop. *)
Definition main_bounded (turns : nat) (argv : list string) (p : Process)
    : option (termination * Process) :=
  match parse_args main_parser argv with
  | SystemExit => Some (usage_exit, p)
  | Namespace args =>
      let p0 :=
        (print_all ["üöÄ Binance Futures Trading Bot"; equals_line] p).2 in
      match main_startup args p0 with
      | (Leave s, p1) => Some (main_handlers (Leave s, p1))
      | (Next bot, p1) => main_handlers <$> menu_loop turns bot p1
      end
  end.

(** [main]: every turn of the loop reads at least one line, so one turn
    more than there are lines is bound enough. *)
Definition main (argv : list string) (p : Process) : option (termination * Process) :=
  main_bounded (S (length (stdin p))) argv p.

End Main.


(** A sample of the two text functions: plain text for strings and
    numbers, a placeholder for containers; the time as whole seconds. *)
Global Instance sample_texts : ValueText := {|
  str_of_value v :=
    match v with
    | VNone => "None"
    | VBool b => if b then "True" else "False"
    | VInt n => pretty n
    | VFloat x => str_of_float x
    | VStr s => s
    | VList _ => "[...]"
    | VDict _ => "{...}"
    end;
  time_text v :=
    match v with
    | VInt n => Ok (pretty (n `div` 1000)%Z)
    | _ => Raise (Exn TypeError "unsupported operand type(s) for /")
    end
|}.

(** A process about to run on a scripted exchange: the script and the
    lines waiting on standard input. *)
Definition boot (s : script) (lines : list console_event) : @Process script :=
  {| world := start s; stdin := lines; stdout := [] |}.


(** ** Words about a run of main *)

(** The parameter mappings of the order placements of a trace. *)
Definition order_calls_of (tr : list event) : list dict :=
  omap (λ ev, match ev with
              | Call method kwargs =>
                  if bool_decide (method = "futures_create_order")
                  then Some kwargs else None
              | _ => None
              end) tr.

(** An order as the prompts of the menu let it through: the side is BUY
    or SELL, the quantity a float above zero, and so are the price and
    the stop price when the order has them. *)
Definition validated_order (kwargs : dict) : Prop :=
  (kwargs !! "side" = Some (VStr "BUY") ∨ kwargs !! "side" = Some (VStr "SELL"))
  ∧ (∃ x, kwargs !! "quantity" = Some (VFloat x) ∧ PrimFloat.ltb 0%float x = true)
  ∧ (∀ v, kwargs !! "price" = Some v →
          ∃ x, v = VFloat x ∧ PrimFloat.ltb 0%float x = true)
  ∧ (∀ v, kwargs !! "stopPrice" = Some v →
          ∃ x, v = VFloat x ∧ PrimFloat.ltb 0%float x = true).

Section MainWords.

Context {X : Type} `{!Exchange X} `{!FloatText} `{!ValueText}.

(** What the console can make of a prompt other than a value: an
    interrupt at a bare [input], the exit with code 0 of
    [validate_input], or the end of the input. *)
Definition console_signal (s : signal) (p' : @Process X) : Prop :=
  s = sig_interrupt
  ∨ s = sig_exit 0
  ∨ (s = sig_exception (Exn EOFError "EOF when reading a line") ∧ stdin p' = []).

(** From [p] to [p']: no input was put back, and every order placed in
    between was a validated one. *)
Definition progress (p p' : @Process X) : Prop :=
  length (stdin p') ≤ length (stdin p)
  ∧ ∃ new,
      order_calls_of (trace (world p')) = order_calls_of (trace (world p)) ++ new
      ∧ Forall validated_order new.

(** A statement that talks to the console: it makes progress, returns
    values that satisfy [Q], and is left only on a signal of the
    console. *)
Definition console_step {A : Type} (m : @P X A) (Q : A → Prop) : Prop :=
  ∀ p,
    progress p (m p).2
    ∧ match (m p).1 with
      | Next a => Q a
      | Leave s => console_signal s (m p).2
      end.

(** A statement that does not read the console: it makes progress,
    leaves the input alone, and is left only by an exception. *)
Definition quiet_step {A : Type} (m : @P X A) : Prop :=
  ∀ p,
    progress p (m p).2
    ∧ stdin (m p).2 = stdin p
    ∧ match (m p).1 with
      | Next _ => True
      | Leave s => ∃ e, s = sig_exception e
      end.

End MainWords.


Section SilentWords.

Context {X : Type}.

(** A statement that only prints or evaluates: it leaves the world and
    the input alone and is left only by an exception. *)
Definition silent_step {A : Type} (m : @P X A) : Prop :=
  ∀ p,
    world (m p).2 = world p
    ∧ stdin (m p).2 = stdin p
    ∧ match (m p).1 with
      | Next _ => True
      | Leave s => ∃ e, s = sig_exception e
      end.

End SilentWords.


(** An exchange that cannot be reached: the vendor's constructor raises,
    as every call would. *)
Definition unreachable : exn :=
  Exn (OtherException "ConnectionError") "connection refused".

Definition unreachable_exchange : Exchange unit := {|
  Client_new _ _ _ x := (Raise unreachable, x);
  futures_ping _ x := (Raise unreachable, x);
  futures_account _ x := (Raise unreachable, x);
  futures_symbol_ticker _ _ x := (Raise unreachable, x);
  futures_exchange_info _ x := (Raise unreachable, x);
  futures_create_order _ _ x := (Raise unreachable, x);
  futures_cancel_order _ _ x := (Raise unreachable, x);
  futures_get_open_orders _ _ x := (Raise unreachable, x);
  futures_get_order _ _ x := (Raise unreachable, x);
  time_ms _ := 1751328000000%Z
|}.

(** The client the scripted exchange makes for the sample credentials,
    and the command line and namespace of the sample runs of [main]. *)
Definition sample_client : Client :=
  {| client_api_key := "key";
     client_api_secret := "secret";
     client_testnet := true;
     API_URL := "https://api.binance.com/api";
     FUTURES_URL := "https://fapi.binance.com/fapi" |}.

Definition sample_argv : list string :=
  ["--api-key"; "key"; "--api-secret"; "secret"].

Definition sample_args : dict :=
  {[ "api_key" := VStr "key"; "api_secret" := VStr "secret";
     "testnet" := VBool true ]}.


(** * Properties *)

Section FacadeProperties.

Context {X : Type} `{!Exchange X} `{!FloatText}.

Implicit Types (w : @World X) (self : BasicBot) (tr : list event).

(** ** Reading a trace *)

Lemma requests_of_app tr1 tr2 :
  requests_of (tr1 ++ tr2) = requests_of tr1 ++ requests_of tr2.
Proof. apply omap_app. Qed.

Lemma responses_of_app tr1 tr2 :
  responses_of (tr1 ++ tr2) = responses_of tr1 ++ responses_of tr2.
Proof. apply omap_app. Qed.

Lemma errors_of_app tr1 tr2 :
  errors_of (tr1 ++ tr2) = errors_of tr1 ++ errors_of tr2.
Proof. apply omap_app. Qed.

Lemma calls_of_app tr1 tr2 :
  calls_of (tr1 ++ tr2) = calls_of tr1 ++ calls_of tr2.
Proof. apply omap_app. Qed.

(** Unfolds the statements of the facade down to functions on worlds. *)
Ltac run_facade :=
  unfold try_except, mbind, M_bind, mret, M_ret, vendor, eval, raise, now_ms,
    log_api_request, log_api_response, log_order_execution, log_error,
    logger_log;
  simpl.

(** Brings a trace built by successive appends to the form
    [trace w ++ added]. *)
Ltac flatten_trace := rewrite <- ?app_assoc; simpl.

(** ** The pass-through methods in closed form *)

Lemma place_market_order_round_trip self symbol side quantity w :
  place_market_order self symbol side quantity w =
  let params := market_order_params symbol side quantity (time_ms (env w)) in
  round_trip "futures_create_order" params
    (futures_create_order (client self) params) is_vendor_exception
    (market_order_context symbol side quantity) order_placed w.
Proof.
  unfold place_market_order, round_trip, is_vendor_exception, order_placed.
  run_facade.
  destruct (futures_create_order _ _ _) as [[order|e] x]; simpl.
  - by flatten_trace.
  - destruct (is_order_exception e); simpl; [by flatten_trace|].
    destruct (is_api_exception e); simpl; by flatten_trace.
Qed.

Lemma place_limit_order_round_trip self symbol side quantity price w :
  place_limit_order self symbol side quantity price w =
  let params := limit_order_params symbol side quantity price (time_ms (env w)) in
  round_trip "futures_create_order" params
    (futures_create_order (client self) params) is_vendor_exception
    (limit_order_context symbol side quantity price) order_placed w.
Proof.
  unfold place_limit_order, round_trip, is_vendor_exception, order_placed.
  run_facade.
  destruct (futures_create_order _ _ _) as [[order|e] x]; simpl.
  - by flatten_trace.
  - destruct (is_order_exception e); simpl; [by flatten_trace|].
    destruct (is_api_exception e); simpl; by flatten_trace.
Qed.

Lemma place_stop_limit_order_round_trip self symbol side quantity price stop_price w :
  place_stop_limit_order self symbol side quantity price stop_price w =
  let params :=
    stop_limit_order_params symbol side quantity price stop_price
      (time_ms (env w)) in
  round_trip "futures_create_order" params
    (futures_create_order (client self) params) is_vendor_exception
    (stop_limit_order_context symbol side quantity price stop_price)
    order_placed w.
Proof.
  unfold place_stop_limit_order, round_trip, is_vendor_exception, order_placed.
  run_facade.
  destruct (futures_create_order _ _ _) as [[order|e] x]; simpl.
  - by flatten_trace.
  - destruct (is_order_exception e); simpl; [by flatten_trace|].
    destruct (is_api_exception e); simpl; by flatten_trace.
Qed.

Lemma cancel_order_round_trip self symbol order_id w :
  cancel_order self symbol order_id w =
  let params : dict := {[ "symbol" := VStr symbol; "orderId" := VStr order_id ]} in
  round_trip "futures_cancel_order" params
    (futures_cancel_order (client self) params) is_api_exception
    ("Cancel Order " +:+ order_id +:+ " for " +:+ symbol)
    (λ result, [Log INFO (ApiResponse "futures_cancel_order" result)]) w.
Proof.
  unfold cancel_order, round_trip. run_facade.
  destruct (futures_cancel_order _ _ _) as [[result|e] x]; simpl.
  - by flatten_trace.
  - destruct (is_api_exception e); simpl; by flatten_trace.
Qed.

Lemma get_order_status_round_trip self symbol order_id w :
  get_order_status self symbol order_id w =
  let params : dict := {[ "symbol" := VStr symbol; "orderId" := VStr order_id ]} in
  round_trip "futures_get_order" params
    (futures_get_order (client self) params) is_api_exception
    ("Get Order Status " +:+ order_id +:+ " for " +:+ symbol)
    (λ order, [Log INFO (ApiResponse "futures_get_order" order)]) w.
Proof.
  unfold get_order_status, round_trip. run_facade.
  destruct (futures_get_order _ _ _) as [[order|e] x]; simpl.
  - by flatten_trace.
  - destruct (is_api_exception e); simpl; by flatten_trace.
Qed.


(** ** The parameter mappings of the order placements *)






(** ** get_symbol_info in closed form *)

(** One evaluation step: either it yields [x], or its exception leaves
    the method, through the [except] clause if that matches. *)
Local Ltac step r x :=
  let e := fresh "e" in
  destruct r as [x|e]; simpl;
  [|destruct (is_api_exception e); simpl; by flatten_trace].

Lemma get_symbol_info_closed self symbol w :
  get_symbol_info self symbol w =
  let kwargs : dict := {[ "symbol" := VStr symbol ]} in
  let context := "Get Symbol Info for " +:+ symbol in
  let ticker_events :=
    [Log INFO (ApiRequest "futures_symbol_ticker" kwargs);
     Call "futures_symbol_ticker" kwargs] in
  let info_events :=
    [Log INFO (ApiRequest "futures_exchange_info" ∅);
     Call "futures_exchange_info" ∅] in
  match futures_symbol_ticker (client self) kwargs (env w) with
  | (Raise e, x1) =>
      (Raise e,
       {| env := x1; handlers := handlers w;
          trace := trace w ++ ticker_events ++ api_error_record e context |})
  | (Ok ticker, x1) =>
      match futures_exchange_info (client self) x1 with
      | (Raise e, x2) =>
          (Raise e,
           {| env := x2; handlers := handlers w;
              trace := trace w ++ ticker_events ++ info_events
                       ++ api_error_record e context |})
      | (Ok exchange_info, x2) =>
          match symbol_info_result symbol ticker exchange_info with
          | Ok result =>
              (Ok result,
               {| env := x2; handlers := handlers w;
                  trace := trace w ++ ticker_events ++ info_events
                           ++ [Log INFO (ApiResponse "symbol_info" result)] |})
          | Raise e =>
              (Raise e,
               {| env := x2; handlers := handlers w;
                  trace := trace w ++ ticker_events ++ info_events
                           ++ api_error_record e context |})
          end
      end
  end.
Proof.
  unfold get_symbol_info, symbol_info_result, api_error_record, not_found.
  run_facade. unfold Result_bind.
  destruct (futures_symbol_ticker _ _ _) as [[ticker|e] x1]; simpl;
    [|destruct (is_api_exception e); simpl; by flatten_trace].
  destruct (futures_exchange_info _ _) as [[exchange_info|e] x2]; simpl;
    [|destruct (is_api_exception e); simpl; by flatten_trace].
  step (subscript exchange_info "symbols") listing.
  step (iterate listing) symbols.
  step (find_symbol symbols symbol) found.
  destruct found as [symbol_info|]; simpl; [|by flatten_trace].
  destruct (truthy symbol_info); simpl; [|by flatten_trace].
  step (subscript ticker "price") price.
  step (subscript symbol_info "status") status.
  step (subscript symbol_info "baseAsset") baseAsset.
  step (subscript symbol_info "quoteAsset") quoteAsset.
  step (subscript symbol_info "filters") filters.
  step (iterate filters) items.
  step (first_lot_size "minQty" items) minQty.
  step (first_lot_size "stepSize" items) stepSize.
  by flatten_trace.
Qed.

(** ** The scans of get_symbol_info *)

Lemma eq_str_true v s : eq_str v s = true ↔ v = VStr s.
Proof.
  destruct v; simpl; try (split; [done | discriminate]).
  rewrite bool_decide_eq_true. split; congruence.
Qed.

(** Only a non-empty dict can be subscripted by a string. *)
Lemma subscript_truthy v k x : subscript v k = Ok x → truthy v = true.
Proof.
  destruct v as [| | | | | |d]; simpl; try discriminate.
  destruct (d !! k) as [y|] eqn:Hk; [intros _ | discriminate].
  apply negb_true_iff, bool_decide_eq_false.
  intros Hsize%map_size_empty_iff. by rewrite Hsize, lookup_empty in Hk.
Qed.

Lemma find_symbol_matching before s after symbol :
  Forall (λ s', ∃ name, subscript s' "symbol" = Ok name
                        ∧ eq_str name symbol = false) before →
  subscript s "symbol" = Ok (VStr symbol) →
  find_symbol (before ++ s :: after) symbol = Ok (Some s).
Proof.
  intros Hbefore Hs. induction Hbefore as [|s' before (name & Hname & Hne) _ IH]; simpl.
  - rewrite Hs. simpl. by rewrite bool_decide_eq_true_2.
  - rewrite Hname. simpl. by rewrite Hne.
Qed.




(** Without a filter of type LOT_SIZE the field reads "N/A". *)
Lemma first_lot_size_missing field filters :
  Forall (λ f', ∃ ty, subscript f' "filterType" = Ok ty
                      ∧ eq_str ty "LOT_SIZE" = false) filters →
  first_lot_size field filters = Ok (VStr "N/A").
Proof.
  induction 1 as [|f' filters (ty & Hty & Hne) _ IH]; simpl; [done|].
  rewrite Hty. simpl. by rewrite Hne.
Qed.

(** ** Symbol information *)





(** ** One request and one response per successful operation *)

Lemma round_trip_ok method params call caught context after w v w' :
  round_trip method params call caught context after w = (Ok v, w') →
  trace w' = trace w ++ [Log INFO (ApiRequest method params); Call method params]
                     ++ after v.
Proof.
  unfold round_trip. destruct (call (env w)) as [[r|e] x]; [|discriminate].
  by intros [= <- <-].
Qed.

Lemma get_account_balance_ok self w v w' :
  get_account_balance self w = (Ok v, w') →
  trace w' = trace w ++ [Log INFO (ApiRequest "futures_account" ∅);
                         Call "futures_account" ∅;
                         Log INFO (ApiResponse "futures_account" v)].
Proof.
  unfold get_account_balance. run_facade.
  destruct (futures_account _ _) as [[account_info|e] x]; simpl;
    [|by destruct (is_api_exception e)].
  destruct account_info; simpl; try done.
  intros [= <- <-]. simpl. by flatten_trace.
Qed.

Lemma get_open_orders_ok self symbol w v w' :
  get_open_orders self symbol w = (Ok v, w') →
  ∃ count : Z,
    trace w' = trace w
               ++ [Log INFO (ApiRequest "futures_get_open_orders"
                               (match symbol_given symbol with
                                | Some s => <[ "symbol" := VStr s ]> ∅
                                | None => ∅
                                end));
                   Call "futures_get_open_orders"
                     (match symbol_given symbol with
                      | Some s => <[ "symbol" := VStr s ]> ∅
                      | None => ∅
                      end);
                   Log INFO (ApiResponse "futures_get_open_orders"
                               (VDict {[ "count" := VInt count ]}))].
Proof.
  unfold get_open_orders. run_facade.
  destruct (futures_get_open_orders _ _ _) as [[orders|e] x]; simpl;
    [|by destruct (is_api_exception e)].
  destruct (len orders) as [count|e]; simpl;
    [|by destruct (is_api_exception e)].
  intros [= <- <-]. exists count. simpl. by flatten_trace.
Qed.

Lemma get_symbol_info_ok self symbol w v w' :
  get_symbol_info self symbol w = (Ok v, w') →
  trace w' = trace w
             ++ [Log INFO (ApiRequest "futures_symbol_ticker"
                             {[ "symbol" := VStr symbol ]});
                 Call "futures_symbol_ticker" {[ "symbol" := VStr symbol ]};
                 Log INFO (ApiRequest "futures_exchange_info" ∅);
                 Call "futures_exchange_info" ∅;
                 Log INFO (ApiResponse "symbol_info" v)].
Proof.
  rewrite get_symbol_info_closed. simpl.
  destruct (futures_symbol_ticker _ _ _) as [[ticker|e] x1]; [|discriminate].
  destruct (futures_exchange_info _ _) as [[exchange_info|e] x2]; [|discriminate].
  destruct (symbol_info_result _ _ _) as [result|e]; [|discriminate].
  by intros [= <- <-].
Qed.

(** C2, as the code has it.  Every operation of the facade that
    completes successfully adds to the log exactly one request record and
    one response record under the same operation name, except
    [get_symbol_info]: it logs two requests, futures_symbol_ticker and
    futures_exchange_info, one for each vendor call it makes, and one
    response under the name symbol_info. *)
Theorem successful_operation_records self op w w' v :
  perform self op w = (Ok v, w') →
  ∃ added,
    trace w' = trace w ++ added
    ∧ match op with
      | op_get_symbol_info _ =>
          requests_of added = ["futures_symbol_ticker"; "futures_exchange_info"]
          ∧ responses_of added = ["symbol_info"]
      | _ => one_matching_pair added
      end.
Proof.
  destruct op; simpl; intros Hrun.
  - apply get_account_balance_ok in Hrun.
    eexists. split; [done|]. by exists "futures_account".
  - apply get_symbol_info_ok in Hrun. eexists. by split.
  - rewrite place_market_order_round_trip in Hrun. apply round_trip_ok in Hrun.
    eexists. split; [done|]. by exists "futures_create_order".
  - rewrite place_limit_order_round_trip in Hrun. apply round_trip_ok in Hrun.
    eexists. split; [done|]. by exists "futures_create_order".
  - rewrite place_stop_limit_order_round_trip in Hrun. apply round_trip_ok in Hrun.
    eexists. split; [done|]. by exists "futures_create_order".
  - rewrite cancel_order_round_trip in Hrun. apply round_trip_ok in Hrun.
    eexists. split; [done|]. by exists "futures_cancel_order".
  - apply get_open_orders_ok in Hrun as [count Hrun].
    eexists. split; [done|]. by exists "futures_get_open_orders".
  - rewrite get_order_status_round_trip in Hrun. apply round_trip_ok in Hrun.
    eexists. split; [done|]. by exists "futures_get_order".
Qed.

(** ** Failed order placements *)

Lemma round_trip_raise method params call caught context after w e x :
  call (env w) = (Raise e, x) →
  caught e = true →
  round_trip method params call caught context after w
  = (Raise e,
     {| env := x; handlers := handlers w;
        trace := trace w ++ [Log INFO (ApiRequest method params);
                             Call method params;
                             Log ERROR (ErrorMsg context (exn_str e))] |}).
Proof. intros Hcall Hcaught. unfold round_trip. by rewrite Hcall, Hcaught. Qed.

Lemma is_vendor_exception_true e :
  is_api_exception e = true ∨ is_order_exception e = true →
  is_vendor_exception e = true.
Proof.
  unfold is_vendor_exception. intros [-> | ->]; [apply orb_true_r | done].
Qed.

(** C4. When the exchange client answers an order placement with a
    vendor API exception or an order exception, the facade writes exactly
    one error record, whose context text names the operation and its
    arguments, and raises the very same exception to the caller.  The
    client was called once: nothing is retried, and no response is
    logged. *)
Theorem failed_order_logged_and_reraised :
  (∀ self symbol side quantity w e x,
      futures_create_order (client self)
        (market_order_params symbol side quantity (time_ms (env w))) (env w)
        = (Raise e, x) →
      is_api_exception e = true ∨ is_order_exception e = true →
      ∃ w' added,
        place_market_order self symbol side quantity w = (Raise e, w')
        ∧ trace w' = trace w ++ added
        ∧ errors_of added
          = [("Market Order " +:+ side +:+ " " +:+ str_of_float quantity
                +:+ " " +:+ symbol, exn_str e)]
        ∧ length (calls_of added) = 1
        ∧ responses_of added = [])
  ∧ (∀ self symbol side quantity price w e x,
      futures_create_order (client self)
        (limit_order_params symbol side quantity price (time_ms (env w))) (env w)
        = (Raise e, x) →
      is_api_exception e = true ∨ is_order_exception e = true →
      ∃ w' added,
        place_limit_order self symbol side quantity price w = (Raise e, w')
        ∧ trace w' = trace w ++ added
        ∧ errors_of added
          = [("Limit Order " +:+ side +:+ " " +:+ str_of_float quantity
                +:+ " " +:+ symbol +:+ " @ " +:+ str_of_float price, exn_str e)]
        ∧ length (calls_of added) = 1
        ∧ responses_of added = [])
  ∧ (∀ self symbol side quantity price stop_price w e x,
      futures_create_order (client self)
        (stop_limit_order_params symbol side quantity price stop_price
           (time_ms (env w))) (env w)
        = (Raise e, x) →
      is_api_exception e = true ∨ is_order_exception e = true →
      ∃ w' added,
        place_stop_limit_order self symbol side quantity price stop_price w
        = (Raise e, w')
        ∧ trace w' = trace w ++ added
        ∧ errors_of added
          = [("Stop-Limit Order " +:+ side +:+ " " +:+ str_of_float quantity
                +:+ " " +:+ symbol +:+ " @ " +:+ str_of_float price
                +:+ " (stop: " +:+ str_of_float stop_price +:+ ")", exn_str e)]
        ∧ length (calls_of added) = 1
        ∧ responses_of added = []).
Proof.
  split; [|split]; intros * Hcall Hvendor%is_vendor_exception_true.
  - rewrite place_market_order_round_trip. simpl.
    erewrite round_trip_raise by done. eexists _, _. by repeat split.
  - rewrite place_limit_order_round_trip. simpl.
    erewrite round_trip_raise by done. eexists _, _. by repeat split.
  - rewrite place_stop_limit_order_round_trip. simpl.
    erewrite round_trip_raise by done. eexists _, _. by repeat split.
Qed.

(** ** The balance snapshot *)

(** C5. Whatever account mapping the exchange returns,
    [get_account_balance] returns a mapping with exactly the three fields
    totalWalletBalance, availableBalance and totalUnrealizedProfit, each
    holding the value of the field of that name in the response, as it
    is; a field the response lacks reads "0". *)
Theorem balance_snapshot_fields self w (account_info : dict) x :
  futures_account (client self) (env w) = (Ok (VDict account_info), x) →
  ∃ (balance_info : dict) w',
    get_account_balance self w = (Ok (VDict balance_info), w')
    ∧ dom balance_info
      = {[ "totalWalletBalance"; "availableBalance"; "totalUnrealizedProfit" ]}
    ∧ (∀ k, k ∈ ["totalWalletBalance"; "availableBalance"; "totalUnrealizedProfit"] →
         (∀ v, account_info !! k = Some v → balance_info !! k = Some v)
         ∧ (account_info !! k = None → balance_info !! k = Some (VStr "0"))).
Proof.
  intros Haccount. unfold get_account_balance. run_facade.
  rewrite Haccount. simpl. eexists _, _. split; [reflexivity|].
  split; [done|].
  intros k Hk. repeat (apply elem_of_cons in Hk as [-> | Hk]);
    [| | |by apply elem_of_nil in Hk].
  all: split; [intros v Hv | intros Hv]; rewrite Hv; by simplify_map_eq.
Qed.

(** ** Open orders with an empty symbol *)

(** C10. [get_open_orders] called with the empty string behaves exactly
    as called with [None]: in both cases the parameter mapping logged and
    passed to the exchange client is empty, so no [symbol] key is sent and
    the open orders of all symbols are requested. *)
Theorem open_orders_empty_symbol self w :
  get_open_orders self (Some "") w = get_open_orders self None w
  ∧ calls_of (trace (get_open_orders self (Some "") w).2)
    = calls_of (trace w) ++ [("futures_get_open_orders", ∅)]
  ∧ calls_of (trace (get_open_orders self None w).2)
    = calls_of (trace w) ++ [("futures_get_open_orders", ∅)].
Proof.
  split; [reflexivity|].
  split; unfold get_open_orders; run_facade.
  all: destruct (futures_get_open_orders _ _ _) as [[orders|e] x]; simpl;
    [destruct (len orders) as [count|e]; simpl|];
    try destruct (is_api_exception e); simpl;
    rewrite !calls_of_app; simpl; by rewrite ?app_nil_r.
Qed.

(** Menu entry 4 of [main] turns a blank line into [None] before the
    call, so from the menu the empty string never reaches the facade. *)
Lemma open_orders_blank_line : open_orders_symbol "   " = None.
Proof. reflexivity. Qed.


(** ** Construction and the connectivity check *)

(** What a returned facade tells about the run that built it. *)
Lemma BasicBot_init_returns api_key api_secret testnet w bot w' :
  BasicBot_init api_key api_secret testnet w = (Ok bot, w') →
  ∃ c x0 ping_result x1 (account_info : dict) x2,
    Client_new api_key api_secret testnet (env w) = (Ok c, x0)
    ∧ bot = {| client := if testnet then set_testnet_urls c else c |}
    ∧ futures_ping (client bot) x0 = (Ok ping_result, x1)
    ∧ futures_account (client bot) x1 = (Ok (VDict account_info), x2).
Proof.
  unfold BasicBot_init, _test_connection, TradingBotLogger_init. run_facade.
  destruct (Client_new _ _ _ _) as [[c|e] x0] eqn:Hclient; simpl; [|done].
  set (c' := if testnet then set_testnet_urls c else c).
  destruct (futures_ping c' x0) as [[ping_result|e] x1] eqn:Hping; simpl;
    [|by destruct (is_api_exception e)].
  destruct (futures_account c' x1) as [[account_info|e] x2] eqn:Haccount; simpl;
    [|by destruct (is_api_exception e)].
  destruct account_info; simpl; try done.
  intros [= <- <-]. by eexists _, _, _, _, _, _.
Qed.

(** C7. Once the vendor client object exists, a connectivity check that
    fails (the ping raises, or the ping answers and the account fetch
    raises) makes the construction of the facade fail: [BasicBot_init]
    raises that same exception, and the last thing it did before was to
    log it under "Bot Initialization".  Conversely a facade is returned
    only when both the ping and the account fetch have answered, so no
    facade whose check failed ever reaches the caller. *)
Theorem failed_check_fails_construction api_key api_secret testnet w c x0 :
  Client_new api_key api_secret testnet (env w) = (Ok c, x0) →
  let self := {| client := if testnet then set_testnet_urls c else c |} in
  (∀ e,
      (∃ x1, futures_ping (client self) x0 = (Raise e, x1))
      ∨ (∃ ping_result x1 x2,
            futures_ping (client self) x0 = (Ok ping_result, x1)
            ∧ futures_account (client self) x1 = (Raise e, x2)) →
      ∃ w',
        BasicBot_init api_key api_secret testnet w = (Raise e, w')
        ∧ last (trace w')
          = Some (Log ERROR (ErrorMsg "Bot Initialization" (exn_str e))))
  ∧ (∀ bot w',
      BasicBot_init api_key api_secret testnet w = (Ok bot, w') →
      bot = self
      ∧ ∃ ping_result x1 (account_info : dict) x2,
          futures_ping (client self) x0 = (Ok ping_result, x1)
          ∧ futures_account (client self) x1 = (Ok (VDict account_info), x2)).
Proof.
  intros Hclient self. subst self. simpl.
  set (c' := if testnet then set_testnet_urls c else c). split.
  - intros e Hfails.
    unfold BasicBot_init, _test_connection, TradingBotLogger_init. run_facade.
    rewrite Hclient. simpl. fold c'.
    destruct Hfails as [(x1 & Hping) | (ping_result & x1 & x2 & Hping & Haccount)].
    + rewrite Hping. simpl.
      destruct (is_api_exception e); simpl; eexists; (split; [reflexivity|]);
        simpl; apply last_snoc.
    + rewrite Hping. simpl. rewrite Haccount. simpl.
      destruct (is_api_exception e); simpl; eexists; (split; [reflexivity|]);
        simpl; apply last_snoc.
  - intros bot w'.
    unfold BasicBot_init, _test_connection, TradingBotLogger_init. run_facade.
    rewrite Hclient. simpl. fold c'.
    destruct (futures_ping c' x0) as [[ping_result|e] x1] eqn:Hping; simpl;
      [|by destruct (is_api_exception e)].
    destruct (futures_account c' x1) as [[account_info|e] x2] eqn:Haccount; simpl;
      [|by destruct (is_api_exception e)].
    destruct account_info; simpl; try done.
    intros [= <- <-]. split; [done|]. by eexists _, _, _, _.
Qed.

End FacadeProperties.

(** ** The numeric prompts *)

Section Prompts.

Context `{!FloatText}.



End Prompts.

(** ** The command line *)

Lemma lookup_option_elem_of parser s a :
  lookup_option parser s = Some a → a ∈ parser.
Proof.
  unfold lookup_option. intros [Hin _]%find_some. by apply list_elem_of_In.
Qed.

Lemma option_tuples_elem_of parser arg_string a explicit_arg :
  (a, explicit_arg) ∈ option_tuples parser arg_string → a ∈ parser.
Proof.
  unfold option_tuples.
  destruct (String.prefix "--" arg_string).
  - destruct (split_eq arg_string) as [option_prefix explicit].
    intros (a' & (os & Hin & _)%list_elem_of_bind & Ha')%list_elem_of_bind.
    destruct (String.prefix option_prefix os);
      [apply list_elem_of_singleton in Hin as [= -> _]; done
      |by apply elem_of_nil in Hin].
  - intros (a' & (os & Hin & _)%list_elem_of_bind & Ha')%list_elem_of_bind.
    destruct (bool_decide _);
      [apply list_elem_of_singleton in Hin as [= -> _]; done|].
    destruct (String.prefix arg_string os);
      [apply list_elem_of_singleton in Hin as [= -> _]; done
      |by apply elem_of_nil in Hin].
Qed.

(** An option string is only ever read as an argument of the parser. *)
Lemma parse_optional_elem_of parser arg_string a explicit_arg :
  parse_optional parser arg_string = Optional a explicit_arg → a ∈ parser.
Proof.
  unfold parse_optional.
  destruct (bool_decide (arg_string = "")); [done|].
  destruct (negb _); [done|].
  destruct (lookup_option parser arg_string) as [a'|] eqn:Hexact.
  { intros [= <- _]. by eapply lookup_option_elem_of. }
  destruct (bool_decide (String.length arg_string = 1)); [done|].
  assert (match option_tuples parser arg_string with
          | [] =>
              if negative_number arg_string then Positional
              else if has_space arg_string then Positional else Unknown
          | [(a0, explicit_arg0)] => Optional a0 explicit_arg0
          | _ :: _ :: _ => Ambiguous
          end = Optional a explicit_arg → a ∈ parser) as Habbreviation.
  { destruct (option_tuples parser arg_string) as [|[a0 e0] [|? ?]] eqn:Htuples.
    - by repeat case_match.
    - intros [= <- <-]. eapply option_tuples_elem_of. rewrite Htuples. by left.
    - done. }
  destruct (split_eq arg_string) as [option_string [explicit|]]; [|done].
  destruct (lookup_option parser option_string) as [a'|] eqn:Hname; [|done].
  intros [= <- _]. by eapply lookup_option_elem_of.
Qed.

(** A property of the namespace and of the arguments seen that the two
    storing actions preserve holds when [consume] is done. *)
Lemma consume_invariant parser (I : dict → list string → Prop) :
  (∀ a v ns seen, a ∈ parser → act a = store → I ns seen →
     I (<[ dest a := VStr v ]> ns) (dest a :: seen)) →
  (∀ a ns seen, a ∈ parser → act a = store_true → I ns seen →
     I (<[ dest a := VBool true ]> ns) (dest a :: seen)) →
  ∀ n argv ns seen args,
    length argv ≤ n →
    I ns seen →
    consume parser argv ns seen = Namespace args →
    ∃ seen', I args seen' ∧ finish parser args seen' = Namespace args.
Proof.
  intros Hstore Hflag.
  assert (∀ ns seen args, I ns seen → finish parser ns seen = Namespace args →
            ∃ seen', I args seen' ∧ finish parser args seen' = Namespace args)
    as Hfinish.
  { intros ns seen args Hns Hdone. exists seen.
    assert (args = ns) as ->; [|done].
    unfold finish in Hdone. case_match; [|done]. by injection Hdone. }
  induction n as [|n IH]; intros argv ns seen args Hlen Hns.
  { destruct argv; [|simpl in Hlen; lia]. simpl. by apply Hfinish. }
  destruct argv as [|arg_string rest]; simpl; [by apply Hfinish|].
  simpl in Hlen.
  destruct (bool_decide (arg_string = "--")).
  { destruct rest; [by apply Hfinish | done]. }
  destruct (parse_optional parser arg_string) as [|a explicit_arg| |] eqn:Hparse;
    try done.
  apply parse_optional_elem_of in Hparse.
  destruct (act a) eqn:Hact, explicit_arg as [v|]; try done.
  - apply IH; [lia | by apply Hstore].
  - destruct rest as [|v rest']; [done|].
    destruct (bool_decide (v = "--")).
    + destruct rest' as [|w [|? ?]]; try done. apply Hfinish. by apply Hstore.
    + destruct (parse_optional parser v); try done.
      apply IH; [simpl in Hlen; lia | by apply Hstore].
  - apply IH; [lia | by apply Hflag].
Qed.

Ltac each_argument Ha :=
  repeat (apply elem_of_cons in Ha as [-> | Ha]); [..|by apply elem_of_nil in Ha].

(** Reading the arguments of [main] keeps [testnet] at [True]: its
    default is [True] and the one action that writes it stores [True]. *)
Lemma parse_args_testnet argv args :
  parse_args main_parser argv = Namespace args →
  args !! "testnet" = Some (VBool true).
Proof.
  intros Hparse.
  destruct (consume_invariant main_parser
              (λ ns _, ns !! "testnet" = Some (VBool true)))
    with (n := length argv) (argv := argv) (ns := defaults main_parser)
         (seen := @nil string) (args := args)
    as (_ & Htestnet & _); try done.
  - intros a v ns _ Ha Hact Hns. each_argument Ha; try done.
    all: by rewrite lookup_insert_ne.
  - intros a ns _ Ha Hact _. each_argument Ha; try done.
    by rewrite lookup_insert_eq.
Qed.

(** The two required arguments are stored as the strings given on the
    command line. *)
Lemma parse_args_credentials argv args :
  parse_args main_parser argv = Namespace args →
  ∃ api_key api_secret,
    args !! "api_key" = Some (VStr api_key)
    ∧ args !! "api_secret" = Some (VStr api_secret).
Proof.
  intros Hparse.
  destruct (consume_invariant main_parser
              (λ ns seen, ∀ d, d ∈ seen → d = "api_key" ∨ d = "api_secret" →
                               ∃ s, ns !! d = Some (VStr s)))
    with (n := length argv) (argv := argv) (ns := defaults main_parser)
         (seen := @nil string) (args := args)
    as (seen & Hseen & Hdone); try done.
  - intros a v ns seen Ha Hact Hns d [-> | Hd]%elem_of_cons Hcredential.
    + exists v. by rewrite lookup_insert_eq.
    + destruct (decide (dest a = d)) as [-> | Hne].
      * exists v. by rewrite lookup_insert_eq.
      * rewrite lookup_insert_ne by done. by apply Hns.
  - intros a ns seen Ha Hact Hns d Hd Hcredential.
    each_argument Ha; try done. simpl in *.
    apply elem_of_cons in Hd as [-> | Hd]; [by destruct Hcredential|].
    rewrite lookup_insert_ne by (by destruct Hcredential as [-> | ->]).
    by apply Hns.
  - intros d Hd. by apply elem_of_nil in Hd.
  - unfold finish in Hdone. case_match eqn:Hrequired; [|done].
    simpl in Hrequired. rewrite !andb_true_iff, !bool_decide_eq_true in Hrequired.
    destruct Hrequired as (Hkey & Hsecret & _).
    destruct (Hseen "api_key" Hkey) as [k Hk]; [by left|].
    destruct (Hseen "api_secret" Hsecret) as [s Hs]; [by right|].
    by exists k, s.
Qed.

Lemma BasicBot_init_testnet_urls {X : Type} `{!Exchange X}
    api_key api_secret (w : @World X) bot w' :
  BasicBot_init api_key api_secret true w = (Ok bot, w') →
  API_URL (client bot) = testnet_url ∧ FUTURES_URL (client bot) = testnet_url.
Proof.
  intros (c & x0 & _ & _ & _ & _ & _ & -> & _)%BasicBot_init_returns. done.
Qed.

(** C9. Whatever the command line, a namespace that [parse_args]
    returns has [testnet] set to [True]: the flag cannot be switched
    off.  The facade that [main] then builds from it therefore has a
    client whose two endpoint URLs are the testnet's. *)
Theorem testnet_always_on argv args :
  parse_args main_parser argv = Namespace args →
  args !! "testnet" = Some (VBool true)
  ∧ ∀ (X : Type) (exchange : Exchange X) (w : @World X) bot w',
      main_bot args w = (Ok bot, w') →
      API_URL (client bot) = testnet_url
      ∧ FUTURES_URL (client bot) = testnet_url.
Proof.
  intros Hparse.
  pose proof (parse_args_testnet argv args Hparse) as Htestnet.
  destruct (parse_args_credentials argv args Hparse) as (k & s & Hkey & Hsecret).
  split; [done|].
  intros X exchange w bot w'. unfold main_bot, attribute.
  rewrite Htestnet, Hkey, Hsecret.
  apply BasicBot_init_testnet_urls.
Qed.

(** * The theorems at concrete inputs *)

(** ** Facts about the sample exchange data *)






(** ** C2 *)

(** [get_symbol_info] on a known symbol succeeds with two request records
    and a response record under a third name: the sentence read for every
    operation does not hold. *)
Lemma symbol_info_logs_two_requests :
  ¬ @every_operation_logs_one_pair script scripted_exchange sample_floats.
Proof.
  intros Hall.
  edestruct (Hall sample_bot (op_get_symbol_info "BTCUSDT")
               (start [Ok sample_ticker; Ok sample_exchange_info]))
    as (added & Htrace & name & Hrequests & Hresponses);
    [vm_compute; reflexivity|].
  simpl in Htrace. subst added. vm_compute in Hrequests. discriminate.
Qed.

Lemma successful_operation_records_witness :
  ∃ added,
    trace (cancel_order sample_bot "BTCUSDT" "4242" (start [Ok sample_order])).2
    = [] ++ added
    ∧ one_matching_pair added.
Proof.
  apply (successful_operation_records sample_bot (op_cancel_order "BTCUSDT" "4242")
           (start [Ok sample_order]) _ sample_order).
  reflexivity.
Defined.

(** ** C3 *)



(** ** C4 *)

Lemma failed_order_logged_and_reraised_witness :
  ∃ w' added,
    place_market_order sample_bot "BTCUSDT" "buy" 0x1.47ae147ae147bp-7%float
      (start [Raise rejected])
    = (Raise rejected, w')
    ∧ trace w' = [] ++ added
    ∧ errors_of added = [("Market Order buy 0.01 BTCUSDT", "Margin is insufficient.")]
    ∧ length (calls_of added) = 1
    ∧ responses_of added = [].
Proof.
  destruct failed_order_logged_and_reraised as (Hmarket & _ & _).
  apply (Hmarket sample_bot "BTCUSDT" "buy" 0x1.47ae147ae147bp-7%float
           (start [Raise rejected]) rejected []).
  - reflexivity.
  - right. reflexivity.
Defined.

(** ** C5 *)

Lemma balance_snapshot_fields_witness :
  ∃ (balance_info : dict) w',
    get_account_balance sample_bot (start [Ok sample_account])
    = (Ok (VDict balance_info), w')
    ∧ dom balance_info
      = {[ "totalWalletBalance"; "availableBalance"; "totalUnrealizedProfit" ]}
    ∧ balance_info !! "availableBalance" = Some (VStr "14000.00000000").
Proof.
  destruct (balance_snapshot_fields sample_bot (start [Ok sample_account])
              {[ "totalWalletBalance" := VStr "15000.00000000";
                 "availableBalance" := VStr "14000.00000000";
                 "totalUnrealizedProfit" := VStr "0.00000000";
                 "canTrade" := VBool true ]} [])
    as (balance_info & w' & Hrun & Hdom & Hfields).
  - reflexivity.
  - exists balance_info, w'. repeat split; [exact Hrun | exact Hdom |].
    apply (Hfields "availableBalance").
    + right. left.
    + reflexivity.
Defined.

(** ** C6 *)


(** ** C7 *)

Lemma failed_check_fails_construction_witness :
  ∃ w',
    BasicBot_init "key" "secret" true (start [Raise bad_key]) = (Raise bad_key, w')
    ∧ last (trace w')
      = Some (Log ERROR (ErrorMsg "Bot Initialization" (exn_str bad_key))).
Proof.
  destruct (failed_check_fails_construction "key" "secret" true
              (start [Raise bad_key])
              {| client_api_key := "key";
                 client_api_secret := "secret";
                 client_testnet := true;
                 API_URL := "https://api.binance.com/api";
                 FUTURES_URL := "https://fapi.binance.com/fapi" |}
              [Raise bad_key])
    as (Hfails & _).
  - reflexivity.
  - apply Hfails. left. exists []. reflexivity.
Defined.

(** ** C8 *)


(** ** C9 *)

Lemma testnet_always_on_witness :
  ∃ args,
    parse_args main_parser ["--api-key"; "key"; "--api-secret=secret"] = Namespace args
    ∧ args !! "testnet" = Some (VBool true)
    ∧ ∃ bot w',
        main_bot args (start [Ok (VDict ∅); Ok sample_account]) = (Ok bot, w')
        ∧ API_URL (client bot) = testnet_url
        ∧ FUTURES_URL (client bot) = testnet_url.
Proof.
  set (argv := ["--api-key"; "key"; "--api-secret=secret"]).
  set (args := <[ "api_secret" := VStr "secret" ]>
                 (<[ "api_key" := VStr "key" ]> (defaults main_parser))).
  assert (parse_args main_parser argv = Namespace args) as Hparse
    by (vm_compute; reflexivity).
  destruct (testnet_always_on argv args Hparse) as [Htestnet Hurls].
  exists args. split; [exact Hparse|]. split; [exact Htestnet|].
  assert (∃ bot w',
            main_bot args (start [Ok (VDict ∅); Ok sample_account]) = (Ok bot, w'))
    as (bot & w' & Hrun) by (eexists _, _; vm_compute; reflexivity).
  exists bot, w'. split; [exact Hrun|].
  exact (Hurls script scripted_exchange _ bot w' Hrun).
Defined.

(** ** The scenario of the specification *)

(** A limit order for 0.01 BTCUSDT at 50000: the response comes back
    with its identifier and status, and the log holds one request record
    and one order-execution record. *)
Example limit_order_scenario :
  let '(r, w') :=
    place_limit_order sample_bot "BTCUSDT" "BUY" 0x1.47ae147ae147bp-7%float
      50000%float (start [Ok sample_order]) in
  r = Ok sample_order
  ∧ requests_of (trace w') = ["futures_create_order"]
  ∧ omap (λ ev, match ev with
                | Log INFO (OrderExecuted order) => Some order
                | _ => None
                end) (trace w') = [sample_order]
  ∧ (r ≫= λ order, subscript order "orderId") = Ok (VInt 4242)
  ∧ (r ≫= λ order, subscript order "status") = Ok (VStr "NEW").
Proof. vm_compute. by repeat split. Qed.

(** * Further properties of the facade *)

Section FacadeOutcomes.

Context {X : Type} `{!Exchange X} `{!FloatText}.

Implicit Types (w : @World X) (self : BasicBot) (tr : list event).

Ltac run_facade :=
  unfold try_except, mbind, M_bind, mret, M_ret, vendor, eval, raise, now_ms,
    log_api_request, log_api_response, log_order_execution, log_error,
    logger_log;
  simpl.

Ltac flatten_trace := rewrite <- ?app_assoc; simpl.

Lemma round_trip_outcome op method params call context after w :
  (∀ symbol, op ≠ op_get_symbol_info symbol) →
  error_context op = context →
  (∀ r, calls_of (after r) = []) →
  outcome_facts op
    (round_trip method params call (catches op) context after w) (call (env w)) w.
Proof.
  intros Hop <- Hafter. unfold round_trip.
  destruct (call (env w)) as [[r|e] x]; simpl; exists 1; eexists; simpl.
  - split; [done|]. split; [done|]. split; [by constructor|].
    split; [done|]. split; [done|]. done.
  - split; [done|]. split; [done|].
    split; [constructor; by destruct (catches op e)|].
    split; [done|].
    split; [|by intros e' x' [= <- <-]].
    intros e' [= <-]. by destruct (catches op e).
Qed.

Lemma get_account_balance_outcome self w :
  outcome_facts op_get_account_balance (get_account_balance self w)
    (futures_account (client self) (env w)) w.
Proof.
  unfold get_account_balance. run_facade.
  destruct (futures_account _ _) as [[account_info|e] x]; simpl.
  - destruct account_info; simpl; exists 1; eexists; simpl;
      (split; [done|]); (split; [by flatten_trace|]);
      (split; [by constructor|]); (split; [done|]); (split; [|done]);
      by intros e' [= <-].
  - destruct (is_api_exception e) eqn:Hapi; simpl; exists 1; eexists; simpl;
      (split; [done|]); (split; [by flatten_trace|]);
      (split; [by constructor|]); (split; [done|]);
      (split; [|by intros e' x' [= <- <-]]);
      intros e' [= <-]; by rewrite Hapi.
Qed.

Lemma get_open_orders_outcome self symbol w :
  outcome_facts (op_get_open_orders symbol) (get_open_orders self symbol w)
    (first_call self (op_get_open_orders symbol) w) w.
Proof.
  unfold get_open_orders, first_call. run_facade.
  destruct (futures_get_open_orders _ _ _) as [[orders|e] x]; simpl.
  - destruct (len orders) as [count|e] eqn:Hlen; simpl.
    + exists 1. eexists. simpl.
      (split; [done|]); (split; [by flatten_trace|]);
      (split; [by constructor|]); (split; [done|]); (split; [|done]).
      by intros e' [= <-].
    + assert (is_api_exception e = false) as Hlocal
        by (destruct orders; simpl in Hlen; by simplify_eq).
      rewrite Hlocal. simpl. exists 1. eexists. simpl.
      (split; [done|]); (split; [by flatten_trace|]);
      (split; [by constructor|]); (split; [done|]); (split; [|done]).
      intros e' [= <-]. by rewrite Hlocal.
  - destruct (is_api_exception e) eqn:Hapi; simpl; exists 1; eexists; simpl;
      (split; [done|]); (split; [by flatten_trace|]);
      (split; [by constructor|]); (split; [done|]);
      (split; [|by intros e' x' [= <- <-]]);
      intros e' [= <-]; by rewrite Hapi.
Qed.

Lemma get_symbol_info_outcome self symbol w :
  outcome_facts (op_get_symbol_info symbol) (get_symbol_info self symbol w)
    (first_call self (op_get_symbol_info symbol) w) w.
Proof.
  rewrite get_symbol_info_closed. unfold first_call, api_error_record. simpl.
  destruct (futures_symbol_ticker _ _ _) as [[ticker|e] x1]; simpl.
  - destruct (futures_exchange_info _ _) as [[exchange_info|e] x2]; simpl.
    + destruct (symbol_info_result _ _ _) as [result|e]; simpl;
        exists 2; eexists; simpl;
        (split; [done|]); (split; [done|]).
      * split; [by constructor|]. split; [by intros Hop; destruct (Hop symbol)|].
        split; [|done]. by intros e' [= <-].
      * split; [constructor; by destruct (is_api_exception e)|].
        split; [by intros Hop; destruct (Hop symbol)|].
        split; [|done]. intros e' [= <-]. by destruct (is_api_exception e).
    + exists 2. eexists. simpl. (split; [done|]); (split; [done|]).
      split; [constructor; by destruct (is_api_exception e)|].
      split; [by intros Hop; destruct (Hop symbol)|].
      split; [|done]. intros e' [= <-]. by destruct (is_api_exception e).
  - exists 1. eexists. simpl. (split; [done|]); (split; [done|]).
    split; [constructor; by destruct (is_api_exception e)|].
    split; [done|].
    split; [|by intros e' x' [= <- <-]].
    intros e' [= <-]. by destruct (is_api_exception e).
Qed.

(** Every operation, in every outcome. *)
Lemma perform_outcome self op w :
  outcome_facts op (perform self op w) (first_call self op w) w.
Proof.
  destruct op; simpl.
  - apply get_account_balance_outcome.
  - apply get_symbol_info_outcome.
  - rewrite place_market_order_round_trip. by apply round_trip_outcome.
  - rewrite place_limit_order_round_trip. by apply round_trip_outcome.
  - rewrite place_stop_limit_order_round_trip. by apply round_trip_outcome.
  - rewrite cancel_order_round_trip. by apply round_trip_outcome.
  - apply get_open_orders_outcome.
  - rewrite get_order_status_round_trip. by apply round_trip_outcome.
Qed.

Lemma no_call_lookup tr (i : nat) method kwargs :
  calls_of tr = [] → tr !! i ≠ Some (Call method kwargs).
Proof.
  revert i. induction tr as [|ev tr IH]; intros i Hnone; [by destruct i|].
  destruct i as [|i]; simpl.
  - intros [= ->]. discriminate.
  - apply IH. by destruct ev.
Qed.

Lemma operation_trace_calls n added :
  operation_trace n added → length (calls_of added) = n.
Proof.
  destruct 1 as [? ? ? tail Htail|? ? ? ? ? ? tail Htail];
    change (calls_of (?a :: ?l)) with (calls_of [a] ++ calls_of l); simpl;
    change (calls_of (?a :: ?l)) with (calls_of [a] ++ calls_of l); simpl;
    by rewrite Htail.
Qed.

Lemma operation_trace_announced n added :
  operation_trace n added → announced added.
Proof.
  destruct 1 as [n1 m1 kw1 tail Htail|n1 m1 kw1 n2 m2 kw2 tail Htail];
    intros i method kwargs.
  - destruct i as [|[|i]]; simpl; [done| |].
    + intros [= <- <-]. by eexists 0, _.
    + intros Hcall. by destruct (no_call_lookup _ _ _ _ Htail Hcall).
  - destruct i as [|[|[|[|i]]]]; simpl; [done| |done| |].
    + intros [= <- <-]. by eexists 0, _.
    + intros [= <- <-]. by eexists 2, _.
    + intros Hcall. by destruct (no_call_lookup _ _ _ _ Htail Hcall).
Qed.

(** X1. Whatever exception the vendor call of an operation raises (for
    [get_symbol_info]: its first call, the ticker fetch), the operation
    raises that same exception and leaves the environment as the call
    left it.  It has called the vendor once, and has written one error
    record exactly when an [except] clause of the method names the class
    of the exception: BinanceAPIException, and for the order placements
    BinanceOrderException as well.  Any other exception passes through
    without an error record. *)
Theorem vendor_error_propagates self op w e x :
  first_call self op w = (Raise e, x) →
  ∃ w' added,
    perform self op w = (Raise e, w')
    ∧ env w' = x
    ∧ trace w' = trace w ++ added
    ∧ length (calls_of added) = 1
    ∧ errors_of added
      = (if catches op e then [(error_context op, exn_str e)] else [])
    ∧ responses_of added = [].
Proof.
  intros Hfirst.
  destruct (perform_outcome self op w)
    as (n & added & _ & Htrace & Hshape & _ & Hraise & Hfirst').
  destruct (Hfirst' e x Hfirst) as (Hrun & Henv & ->).
  destruct (Hraise e Hrun) as [Herrors Hresponses].
  exists (perform self op w).2, added.
  split; [by rewrite <- Hrun; destruct (perform self op w)|].
  by rewrite (operation_trace_calls _ _ Hshape).
Qed.

(** X2. An operation that fails, for whatever reason, has logged no
    response, and at most one error record: exactly one, holding the
    operation's context text and the text of the exception, when the
    exception is of a class the method catches, and none otherwise (a
    KeyError or TypeError from reading a response, the not-found
    ValueError, a transport error). *)
Theorem failed_operation_records self op w e w' :
  perform self op w = (Raise e, w') →
  ∃ added,
    trace w' = trace w ++ added
    ∧ errors_of added
      = (if catches op e then [(error_context op, exn_str e)] else [])
    ∧ responses_of added = [].
Proof.
  intros Hrun.
  destruct (perform_outcome self op w)
    as (n & added & _ & Htrace & _ & _ & Hraise & _).
  rewrite Hrun in Htrace, Hraise. exists added. split; [done|]. by apply Hraise.
Qed.

(** X3. No operation calls the exchange unannounced: every vendor call
    it makes comes right after a request record with the same parameter
    mapping.  It makes one call, [get_symbol_info] one or two, never
    more (nothing is retried), only appends to the trace, and leaves the
    logger's handlers alone. *)
Theorem calls_are_announced self op w :
  handlers (perform self op w).2 = handlers w
  ∧ ∃ added,
      trace (perform self op w).2 = trace w ++ added
      ∧ announced added
      ∧ 1 ≤ length (calls_of added) ≤ 2
      ∧ ((∀ symbol, op ≠ op_get_symbol_info symbol) →
           length (calls_of added) = 1).
Proof.
  destruct (perform_outcome self op w)
    as (n & added & Hhandlers & Htrace & Hshape & Hone & _ & _).
  split; [done|]. exists added. split; [done|].
  split; [by eapply operation_trace_announced|].
  rewrite (operation_trace_calls _ _ Hshape).
  split; [destruct Hshape; lia | done].
Qed.

End FacadeOutcomes.

(** ** Edges of get_symbol_info *)

Section SymbolInfoEdges.

Context {X : Type} `{!Exchange X}.

Implicit Types (w : @World X) (self : BasicBot).

Lemma subscript_local v k e : subscript v k = Raise e → local_failure e.
Proof.
  unfold local_failure.
  destruct v; simpl; try (intros [= <-]; simpl; tauto).
  case_match; [done|]. intros [= <-]. simpl. tauto.
Qed.

Lemma iterate_local v e : iterate v = Raise e → local_failure e.
Proof.
  unfold local_failure. destruct v; simpl; try done; intros [= <-]; simpl; tauto.
Qed.

Lemma find_symbol_local symbols symbol e :
  find_symbol symbols symbol = Raise e → local_failure e.
Proof.
  induction symbols as [|s symbols IH]; simpl; [done|].
  destruct (subscript s "symbol") as [name|e'] eqn:Hname; simpl.
  - destruct (eq_str name symbol); [done | exact IH].
  - intros [= <-]. by eapply subscript_local.
Qed.

Lemma first_lot_size_local field filters e :
  first_lot_size field filters = Raise e → local_failure e.
Proof.
  induction filters as [|f filters IH]; simpl; [done|].
  destruct (subscript f "filterType") as [ty|e'] eqn:Hty; simpl.
  - destruct (eq_str ty "LOT_SIZE"); [apply subscript_local | exact IH].
  - intros [= <-]. by eapply subscript_local.
Qed.

Lemma symbol_info_result_local symbol ticker exchange_info e :
  symbol_info_result symbol ticker exchange_info = Raise e → local_failure e.
Proof.
  unfold symbol_info_result, mbind, Result_bind.
  repeat
    (match goal with
     | |- context [match subscript ?v ?k with _ => _ end] =>
         let H := fresh "H" in
         destruct (subscript v k) eqn:H; simpl;
         [|intros [= <-]; by eapply subscript_local]
     | |- context [match iterate ?v with _ => _ end] =>
         let H := fresh "H" in
         destruct (iterate v) eqn:H; simpl;
         [|intros [= <-]; by eapply iterate_local]
     | |- context [match find_symbol ?l ?s with _ => _ end] =>
         let H := fresh "H" in
         destruct (find_symbol l s) as [[?|]|] eqn:H; simpl;
         [| |intros [= <-]; by eapply find_symbol_local]
     | |- context [match first_lot_size ?f ?l with _ => _ end] =>
         let H := fresh "H" in
         destruct (first_lot_size f l) eqn:H; simpl;
         [|intros [= <-]; by eapply first_lot_size_local]
     | |- context [if negb (truthy ?v) then _ else _] =>
         destruct (truthy v); simpl
     end);
    try done; intros [= <-]; by left.
Qed.

(** X4. When the ticker fetch has answered and the instrument-list fetch
    raises, [get_symbol_info] raises that same exception after its two
    vendor calls, with one error record if it is a BinanceAPIException
    and none otherwise; no response is logged. *)
Theorem exchange_info_error_propagates self symbol w ticker x1 e x2 :
  futures_symbol_ticker (client self) {[ "symbol" := VStr symbol ]} (env w)
    = (Ok ticker, x1) →
  futures_exchange_info (client self) x1 = (Raise e, x2) →
  ∃ w' added,
    get_symbol_info self symbol w = (Raise e, w')
    ∧ env w' = x2
    ∧ trace w' = trace w ++ added
    ∧ calls_of added
      = [("futures_symbol_ticker", {[ "symbol" := VStr symbol ]});
         ("futures_exchange_info", ∅)]
    ∧ errors_of added
      = (if is_api_exception e
         then [("Get Symbol Info for " +:+ symbol, exn_str e)] else [])
    ∧ responses_of added = [].
Proof.
  intros Hticker Hinfo. rewrite get_symbol_info_closed. simpl.
  rewrite Hticker, Hinfo. eexists _, _. split; [done|]. simpl.
  split; [done|]. split; [done|].
  unfold api_error_record. by destruct (is_api_exception e).
Qed.

(** X5. A failure of [get_symbol_info] after both fetches have answered
    is silent in the log: the exception is the not-found ValueError or a
    KeyError or TypeError from reading the responses, none of which the
    method catches, so the trace holds the two requests and calls and
    neither an error record nor a response. *)
Theorem local_failure_is_silent self symbol w ticker x1 exchange_info x2 e w' :
  futures_symbol_ticker (client self) {[ "symbol" := VStr symbol ]} (env w)
    = (Ok ticker, x1) →
  futures_exchange_info (client self) x1 = (Ok exchange_info, x2) →
  get_symbol_info self symbol w = (Raise e, w') →
  local_failure e
  ∧ ∃ added,
      trace w' = trace w ++ added
      ∧ length (requests_of added) = 2
      ∧ length (calls_of added) = 2
      ∧ errors_of added = []
      ∧ responses_of added = [].
Proof.
  intros Hticker Hinfo. rewrite get_symbol_info_closed. simpl.
  rewrite Hticker, Hinfo.
  destruct (symbol_info_result _ _ _) as [result|e'] eqn:Hresult; [done|].
  intros [= <- <-]. apply symbol_info_result_local in Hresult as Hlocal.
  split; [done|]. eexists. split; [done|]. simpl.
  assert (is_api_exception e' = false) as Hnot_api.
  { unfold is_api_exception. by destruct Hlocal as [-> | [-> | ->]]. }
  unfold api_error_record. by rewrite Hnot_api.
Qed.

(** X6. An instrument none of whose filters is of type LOT_SIZE (an
    empty filter list included) still yields a result: its [minQty] and
    [stepSize] both read "N/A". *)
Theorem missing_lot_size_reads_na self symbol w ticker x1 exchange_info x2 s
    filter_list filters price status baseAsset quoteAsset :
  futures_symbol_ticker (client self) {[ "symbol" := VStr symbol ]} (env w)
    = (Ok ticker, x1) →
  futures_exchange_info (client self) x1 = (Ok exchange_info, x2) →
  matching_instrument exchange_info symbol s →
  subscript s "filters" = Ok filter_list →
  iterate filter_list = Ok filters →
  Forall (λ f, ∃ ty, subscript f "filterType" = Ok ty
                     ∧ eq_str ty "LOT_SIZE" = false) filters →
  subscript ticker "price" = Ok price →
  subscript s "status" = Ok status →
  subscript s "baseAsset" = Ok baseAsset →
  subscript s "quoteAsset" = Ok quoteAsset →
  ∃ (result : dict) w',
    get_symbol_info self symbol w = (Ok (VDict result), w')
    ∧ result !! "minQty" = Some (VStr "N/A")
    ∧ result !! "stepSize" = Some (VStr "N/A")
    ∧ result !! "symbol" = Some (VStr symbol).
Proof.
  intros Hticker Hinfo (listing & before & after & Hlisting & Hiter & Hbefore & Hs)
    Hfilters Hfiter Hnone Hprice Hstatus Hbase Hquote.
  rewrite get_symbol_info_closed. simpl. rewrite Hticker, Hinfo.
  unfold symbol_info_result, mbind, Result_bind.
  rewrite Hlisting, Hiter, (find_symbol_matching _ _ _ _ Hbefore Hs).
  rewrite (subscript_truthy _ _ _ Hs). simpl.
  rewrite Hprice, Hstatus, Hbase, Hquote, Hfilters, Hfiter.
  rewrite !(first_lot_size_missing _ _ Hnone).
  eexists _, _. split; [reflexivity|]. by repeat split.
Qed.

End SymbolInfoEdges.

(** ** Construction of the facade *)

Section Construction.

Context {X : Type} `{!Exchange X}.

Implicit Types (w : @World X) (self : BasicBot).

Ltac run_init :=
  unfold BasicBot_init, _test_connection, TradingBotLogger_init,
    try_except, mbind, M_bind, mret, M_ret, vendor, eval, raise,
    log_api_request, log_api_response, log_error, logger_log;
  simpl.

Ltac flatten_trace := rewrite <- ?app_assoc; simpl.


(** X8. A connectivity check that fails with a BinanceAPIException is
    logged twice, first under "API Connection Test" and then under "Bot
    Initialization"; a failure of any other class is logged once, under
    "Bot Initialization" only.  The constructor made no call after the
    failing one. *)
Theorem failed_check_error_records api_key api_secret testnet w c x0 e :
  Client_new api_key api_secret testnet (env w) = (Ok c, x0) →
  let self := {| client := if testnet then set_testnet_urls c else c |} in
  (∃ x1, futures_ping (client self) x0 = (Raise e, x1))
  ∨ (∃ ping_result x1 x2,
        futures_ping (client self) x0 = (Ok ping_result, x1)
        ∧ futures_account (client self) x1 = (Raise e, x2)) →
  ∃ added,
    trace (BasicBot_init api_key api_secret testnet w).2 = trace w ++ added
    ∧ errors_of added
      = (if is_api_exception e
         then [("API Connection Test", exn_str e);
               ("Bot Initialization", exn_str e)]
         else [("Bot Initialization", exn_str e)])
    ∧ (calls_of added).*1
      = match (futures_ping (client self) x0).1 with
        | Raise _ => ["Client"; "futures_ping"]
        | Ok _ => ["Client"; "futures_ping"; "futures_account"]
        end.
Proof.
  intros Hclient self Hfails. subst self. simpl in *.
  set (c' := if testnet then set_testnet_urls c else c) in *.
  run_init. rewrite Hclient. simpl. fold c'.
  destruct Hfails as [(x1 & Hping) | (ping_result & x1 & x2 & Hping & Haccount)].
  - rewrite Hping. simpl.
    destruct (is_api_exception e); simpl; eexists;
      (split; [by flatten_trace|]); done.
  - rewrite Hping. simpl. rewrite Haccount. simpl.
    destruct (is_api_exception e); simpl; eexists;
      (split; [by flatten_trace|]); done.
Qed.

(** X9. When the vendor's client constructor itself raises, the facade
    logs the exception once under "Bot Initialization" and raises it
    again; the connectivity check is never started: no ping is sent and
    no request is logged. *)
Theorem client_constructor_failure api_key api_secret testnet w e x0 :
  Client_new api_key api_secret testnet (env w) = (Raise e, x0) →
  ∃ w' added,
    BasicBot_init api_key api_secret testnet w = (Raise e, w')
    ∧ env w' = x0
    ∧ trace w' = trace w ++ added
    ∧ (calls_of added).*1 = ["Client"]
    ∧ requests_of added = []
    ∧ errors_of added = [("Bot Initialization", exn_str e)].
Proof.
  intros Hclient. run_init. rewrite Hclient. simpl.
  eexists _, _. split; [done|]. simpl. split; [done|].
  split; [by flatten_trace|]. done.
Qed.

(** X10. A construction succeeds when the client is created, the ping
    answers and the account fetch answers with a mapping.  The facade
    returned holds the vendor's client, with its two URLs set
    to the testnet's when [testnet] is true and left as the vendor made
    them otherwise.  The log gains the requests and responses "ping" and
    "account_info" and no error; of the account response only the wallet
    balance is logged ("N/A" if the response has none). *)
Theorem successful_construction api_key api_secret testnet w c x0
    ping_result x1 (account_info : dict) x2 :
  Client_new api_key api_secret testnet (env w) = (Ok c, x0) →
  let self := {| client := if testnet then set_testnet_urls c else c |} in
  futures_ping (client self) x0 = (Ok ping_result, x1) →
  futures_account (client self) x1 = (Ok (VDict account_info), x2) →
  ∃ w' added,
    BasicBot_init api_key api_secret testnet w = (Ok self, w')
    ∧ env w' = x2
    ∧ trace w' = trace w ++ added
    ∧ requests_of added = ["ping"; "account_info"]
    ∧ responses_of added = ["ping"; "account_info"]
    ∧ errors_of added = []
    ∧ Log INFO (ApiResponse "account_info"
                  (VDict {[ "status" := VStr "success";
                            "totalWalletBalance" :=
                              default (VStr "N/A")
                                (account_info !! "totalWalletBalance") ]}))
      ∈ added
    ∧ (testnet = false → client self = c)
    ∧ (testnet = true →
         API_URL (client self) = testnet_url
         ∧ FUTURES_URL (client self) = testnet_url).
Proof.
  intros Hclient self Hping Haccount. subst self. simpl in *.
  set (c' := if testnet then set_testnet_urls c else c) in *.
  run_init. rewrite Hclient. simpl. fold c'. rewrite Hping. simpl.
  rewrite Haccount. simpl.
  eexists _, _. split; [done|]. simpl. split; [done|].
  split; [by flatten_trace|].
  split; [done|]. split; [done|]. split; [done|].
  split; [set_solver|].
  subst c'. by split; intros ->.
Qed.

End Construction.

(** ** The loop of validate_input *)

Section InputLoop.

Context `{!FloatText}.

Implicit Types (t : input_type) (f : option (value → bool))
  (stdin : list console_event) (stdout : list output).

(** Lines that are not accepted are skipped, each with a prompt and a
    complaint. *)
Lemma validate_input_skip prompt t f bad tail : ∀ stdout,
  Forall (λ b, accepts t f b = None) bad →
  validate_input prompt t f ((Line <$> bad) ++ tail) stdout
  = validate_input prompt t f tail (stdout ++ complaints prompt t bad).
Proof.
  induction bad as [|b bad IH]; intros stdout Hbad.
  { unfold complaints. simpl. by rewrite app_nil_r. }
  apply Forall_cons in Hbad as [Hb Hbad]. simpl.
  unfold accepts in Hb. unfold complaints, complaint. simpl.
  destruct (convert t b) as [v|]; simpl.
  - destruct f as [g|]; [|done]. destruct (g v); [done|]. simpl.
    rewrite IH by done. unfold complaints, complaint. by rewrite <- app_assoc.
  - rewrite IH by done. unfold complaints, complaint. by rewrite <- app_assoc.
Qed.

(** Every input is a run of lines that are not accepted, followed by its
    end, by an interrupt, or by a line that is accepted. *)
Lemma input_split t f stdin :
  ∃ bad tail,
    stdin = (Line <$> bad) ++ tail
    ∧ Forall (λ b, accepts t f b = None) bad
    ∧ (tail = []
       ∨ (∃ rest, tail = KeyboardInterrupt :: rest)
       ∨ (∃ s v rest, tail = Line s :: rest ∧ accepts t f s = Some v)).
Proof.
  induction stdin as [|[s|] stdin (bad & tail & -> & Hbad & Htail)].
  - exists [], []. split; [done|]. split; [done|]. by left.
  - destruct (accepts t f s) as [v|] eqn:Hs.
    + exists [], (Line s :: (Line <$> bad) ++ tail).
      split; [done|]. split; [done|]. right. right. by eexists _, _, _.
    + exists (s :: bad), tail. split; [done|]. split; [by constructor|]. done.
  - exists [], (KeyboardInterrupt :: (Line <$> bad) ++ tail).
    split; [done|]. split; [done|]. right. left. by eexists.
Qed.

Lemma validate_input_accept prompt t f s v rest stdout :
  accepts t f s = Some v →
  validate_input prompt t f (Line s :: rest) stdout
  = (Returned v, rest, stdout ++ [Prompt prompt]).
Proof.
  unfold accepts. simpl. destruct (convert t s) as [v'|]; [|done].
  destruct f as [g|]; [|by intros [= ->]].
  destruct (g v') eqn:Hg; [|done]. by intros [= ->].
Qed.

(** What each way of ending tells about the input. *)
Lemma validate_input_outcome prompt t f stdin stdout :
  match validate_input prompt t f stdin stdout with
  | (Returned v, rest, _) =>
      ∃ bad s, stdin = (Line <$> bad) ++ Line s :: rest ∧ accepts t f s = Some v
  | (Exited code, _, _) => code = 0%Z
  | (Raised e, rest, _) => e = Exn EOFError "EOF when reading a line" ∧ rest = []
  end.
Proof.
  destruct (input_split t f stdin) as (bad & tail & -> & Hbad & Htail).
  rewrite validate_input_skip by done.
  destruct Htail as [-> | [(rest' & ->) | (s & v' & rest' & -> & Hs)]];
    [done..|].
  rewrite (validate_input_accept _ _ _ _ _ _ _ Hs). by exists bad, s.
Qed.



End InputLoop.

(** ** More on the command line *)

(** X13. A namespace that [parse_args] returns for the parser of [main]
    has exactly the three attributes api_key, api_secret and testnet (the
    help option stores nothing); the two credentials are strings, never
    the [None] default, so a command line that lacks a required option
    yields no namespace; and testnet is [True]. *)
Theorem namespace_attributes argv args :
  parse_args main_parser argv = Namespace args →
  dom args = {[ "api_key"; "api_secret"; "testnet" ]}
  ∧ (∃ api_key, args !! "api_key" = Some (VStr api_key))
  ∧ (∃ api_secret, args !! "api_secret" = Some (VStr api_secret))
  ∧ args !! "testnet" = Some (VBool true).
Proof.
  intros Hparse.
  destruct (parse_args_credentials argv args Hparse) as (k & s & Hkey & Hsecret).
  split;
    [|split; [by exists k|split; [by exists s|by eapply parse_args_testnet]]].
  destruct (consume_invariant main_parser
              (λ ns _, dom ns = {[ "api_key"; "api_secret"; "testnet" ]}))
    with (n := length argv) (argv := argv) (ns := defaults main_parser)
         (seen := @nil string) (args := args)
    as (_ & Hdom & _); try done.
  - intros a v ns _ Ha Hact Hns. rewrite dom_insert_L, Hns.
    each_argument Ha; try done; set_solver.
  - intros a ns _ Ha Hact Hns. rewrite dom_insert_L, Hns.
    each_argument Ha; try done; set_solver.
Qed.

(** X14. The usual command line, [--api-key K --api-secret S] with
    values that do not begin with a dash, in either order and with or
    without [--testnet], parses to the namespace holding K, S and
    testnet = True. *)
Theorem usual_command_line api_key api_secret :
  String.prefix "-" api_key = false →
  String.prefix "-" api_secret = false →
  let args : dict :=
    {[ "api_key" := VStr api_key; "api_secret" := VStr api_secret;
       "testnet" := VBool true ]} in
  parse_args main_parser ["--api-key"; api_key; "--api-secret"; api_secret]
  = Namespace args
  ∧ parse_args main_parser ["--api-secret"; api_secret; "--api-key"; api_key]
    = Namespace args
  ∧ parse_args main_parser
      ["--api-key"; api_key; "--api-secret"; api_secret; "--testnet"]
    = Namespace args
  ∧ parse_args main_parser
      ["--testnet"; "--api-key"; api_key; "--api-secret"; api_secret]
    = Namespace args.
Proof.
  intros Hkey Hsecret args.
  assert (∀ v, String.prefix "-" v = false →
            bool_decide (v = "--") = false
            ∧ parse_optional main_parser v = Positional) as Hvalue.
  { intros v Hv. split.
    - apply bool_decide_eq_false. by intros ->.
    - unfold parse_optional. rewrite Hv. simpl. by case_bool_decide. }
  destruct (Hvalue _ Hkey) as [Hk1 Hk2], (Hvalue _ Hsecret) as [Hs1 Hs2].
  unfold parse_args.
  repeat split; simpl; rewrite ?Hk1, ?Hk2, ?Hs1, ?Hs2; simpl;
    rewrite ?Hk1, ?Hk2, ?Hs1, ?Hs2; simpl; unfold finish; simpl;
    f_equal; apply map_eq; intros i; subst args;
    repeat (rewrite lookup_insert; case_decide; [done|]); done.
Qed.

(** * The interactive loop *)

Section MainProperties.

Context {X : Type} `{!Exchange X} `{!FloatText} `{!ValueText}.

Implicit Types (p : @Process X) (w : @World X) (bot : BasicBot).

Local Abbreviation quiet := (@quiet_step X _).
Local Abbreviation console := (@console_step X _).

Lemma order_calls_of_app tr1 tr2 :
  order_calls_of (tr1 ++ tr2) = order_calls_of tr1 ++ order_calls_of tr2.
Proof. apply omap_app. Qed.

Lemma progress_refl p : progress p p.
Proof. split; [done|]. exists []. by rewrite app_nil_r. Qed.

Lemma progress_trans p1 p2 p3 : progress p1 p2 → progress p2 p3 → progress p1 p3.
Proof.
  intros [Hlen1 (new1 & Hcalls1 & Hvalid1)] [Hlen2 (new2 & Hcalls2 & Hvalid2)].
  split; [lia|]. exists (new1 ++ new2).
  rewrite Hcalls2, Hcalls1, <- app_assoc. split; [done|]. by apply Forall_app.
Qed.

(** ** Statements that do not read the console *)

Lemma quiet_ret {A} (a : A) : quiet (mret a : @P X A).
Proof. intros p. split; [apply progress_refl|done]. Qed.

Lemma quiet_print text : quiet (print text).
Proof. intros p. split; [|done]. split; [done|]. exists []. by rewrite app_nil_r. Qed.

Lemma quiet_calc {A} (r : Result A) : quiet (calc r).
Proof.
  intros p. unfold calc. simpl. split; [apply progress_refl|].
  split; [done|]. destruct r; eauto.
Qed.

Lemma quiet_bind {A B} (m : @P X A) (f : A → @P X B) :
  quiet m → (∀ a, quiet (f a)) → quiet (m ≫= f).
Proof.
  intros Hm Hf p. destruct (Hm p) as (Hprogress & Hstdin & Hleave).
  unfold mbind, P_bind. destruct (m p) as [[a|s] p1]; simpl in *; [|done].
  destruct (Hf a p1) as (Hprogress' & Hstdin' & Hleave').
  split; [by eapply progress_trans|]. split; [congruence | done].
Qed.

Lemma quiet_facade {A} (m : @M X A) :
  (∀ w, ∃ new,
      order_calls_of (trace (m w).2) = order_calls_of (trace w) ++ new
      ∧ Forall validated_order new) →
  quiet (facade m).
Proof.
  intros Hm p. unfold facade. specialize (Hm (world p)).
  destruct (m (world p)) as [r w]; simpl in *.
  split; [by split|]. split; [done|]. destruct r; eauto.
Qed.

Lemma quiet_print_field label v key : quiet (print_field label v key).
Proof.
  apply quiet_bind; [apply quiet_calc|]. intros x. apply quiet_print.
Qed.

Lemma quiet_print_balance_field label v key :
  quiet (print_balance_field label v key).
Proof.
  apply quiet_bind; [apply quiet_calc|]. intros x. apply quiet_print.
Qed.

Lemma quiet_print_open_orders orders : quiet (print_open_orders orders).
Proof.
  induction orders as [|order orders IH]; simpl; [apply quiet_ret|].
  apply quiet_bind; [apply quiet_calc|]. intros line.
  apply quiet_bind; [apply quiet_print|]. by intros _.
Qed.

Lemma quiet_print_all lines : quiet (print_all lines).
Proof.
  induction lines as [|line lines IH]; simpl; [apply quiet_ret|].
  apply quiet_bind; [apply quiet_print|]. by intros _.
Qed.

(** [print_all] prints and does nothing else. *)
Lemma print_all_run lines p :
  print_all lines p
  = (Next tt, {| world := world p; stdin := stdin p;
                 stdout := stdout p ++ (Printed <$> lines) |}).
Proof.
  revert p. induction lines as [|line lines IH]; intros p; simpl.
  - unfold mret, P_ret. rewrite app_nil_r. by destruct p.
  - unfold mbind, P_bind, print. simpl. rewrite IH. simpl.
    by rewrite <- app_assoc.
Qed.

(** ** Statements that read the console *)

Lemma console_bind {A B} (m : @P X A) (f : A → @P X B) (Q : A → Prop) (Q' : B → Prop) :
  console m Q → (∀ a, Q a → console (f a) Q') →
  console (m ≫= f) Q'.
Proof.
  intros Hm Hf p. destruct (Hm p) as (Hprogress & Hresult).
  unfold mbind, P_bind. destruct (m p) as [[a|s] p1]; simpl in *; [|done].
  destruct (Hf a Hresult p1) as (Hprogress' & Hresult').
  split; [by eapply progress_trans | done].
Qed.

Lemma console_weaken {A} (m : @P X A) (Q Q' : A → Prop) :
  console m Q → (∀ a, Q a → Q' a) → console m Q'.
Proof.
  intros Hm HQ p. destruct (Hm p) as (Hprogress & Hresult).
  split; [done|]. destruct ((m p).1); [by apply HQ | done].
Qed.

Lemma validate_input_rest prompt t f stdin : ∀ stdout,
  length (validate_input prompt t f stdin stdout).1.2 ≤ length stdin.
Proof.
  induction stdin as [|[s|] stdin IH]; intros stdout; simpl; [done| |lia].
  destruct (convert t s) as [v|]; simpl.
  - destruct f as [g|]; simpl; [|lia].
    destruct (g v); simpl; [lia|]. etrans; [apply IH | lia].
  - etrans; [apply IH | lia].
Qed.

Lemma console_ask prompt t f :
  console (ask prompt t f) (λ v, ∃ s, accepts t f s = Some v).
Proof.
  intros p. unfold ask.
  pose proof (validate_input_rest prompt t f (stdin p) (stdout p)) as Hrest.
  pose proof (validate_input_outcome prompt t f (stdin p) (stdout p)) as Hrun.
  destruct (validate_input prompt t f (stdin p) (stdout p))
    as [[[v|code|e] rest] out]; simpl in *.
  - split; [split; [done|]; exists []; by rewrite app_nil_r|].
    destruct Hrun as (bad & s & _ & Hs). eauto.
  - split; [split; [done|]; exists []; by rewrite app_nil_r|].
    subst code. right. by left.
  - split; [split; [done|]; exists []; by rewrite app_nil_r|].
    destruct Hrun as [-> ->]. right. by right.
Qed.

Lemma console_raw_input prompt : console (raw_input prompt) (λ _, True).
Proof.
  intros p. unfold raw_input.
  destruct (stdin p) as [|[s|] rest] eqn:Hstdin; simpl.
  - split; [split; [simpl; lia|]; exists []; by rewrite app_nil_r|].
    right. by right.
  - split; [split; [rewrite Hstdin; simpl; lia|]; exists []; by rewrite app_nil_r|].
    done.
  - split; [split; [rewrite Hstdin; simpl; lia|]; exists []; by rewrite app_nil_r|].
    by left.
Qed.

(** A block under [except Exception] whose handler prints is never left
    at all when its body does not read the console. *)
Lemma console_guarded {A} (body : @P X A) (handler : exn → @P X A) (Q : A → Prop) :
  quiet body →
  (∀ a, Q a) →
  (∀ e, quiet (handler e) ∧ ∀ p, ∃ a, (handler e p).1 = Next a) →
  console (except_exception body handler) Q.
Proof.
  intros Hbody HQ Hhandler p. unfold except_exception.
  destruct (Hbody p) as (Hprogress & Hstdin & Hleave).
  destruct (body p) as [[a|s] p1]; simpl in *; [done|].
  destruct Hleave as [e ->].
  destruct (Hhandler e) as [Hquiet Hreturns].
  destruct (Hquiet p1) as (Hprogress' & _ & _).
  destruct (Hreturns p1) as [a Ha].
  split; [by eapply progress_trans|]. by rewrite Ha.
Qed.

Lemma printing_handler text e :
  quiet (print (text +:+ exn_str e))
  ∧ ∀ p, ∃ a, (print (text +:+ exn_str e) p).1 = Next a.
Proof. split; [apply quiet_print|]. intros p. eexists. reflexivity. Qed.

(** ** The orders the facade sends *)

Ltac run_facade :=
  unfold try_except, mbind, M_bind, mret, M_ret, vendor, eval, raise, now_ms,
    log_api_request, log_api_response, log_order_execution, log_error,
    logger_log;
  simpl.

Ltac count_orders := rewrite ?order_calls_of_app; simpl; rewrite ?app_nil_r.

Lemma round_trip_order_calls method params call caught context after w :
  (∀ r, order_calls_of (after r) = []) →
  order_calls_of (trace (round_trip method params call caught context after w).2)
  = order_calls_of (trace w)
    ++ (if bool_decide (method = "futures_create_order") then [params] else []).
Proof.
  intros Hafter. unfold round_trip.
  destruct (call (env w)) as [[r|e] x]; unfold snd, trace.
  - rewrite !order_calls_of_app, Hafter, app_nil_r. simpl.
    by case_bool_decide.
  - rewrite !order_calls_of_app.
    assert (order_calls_of
              (if caught e
               then [Log ERROR (ErrorMsg context (exn_str e))] else []) = [])
      as -> by (by destruct (caught e)).
    rewrite app_nil_r. simpl. by case_bool_decide.
Qed.

Lemma get_account_balance_no_order self w :
  order_calls_of (trace (get_account_balance self w).2) = order_calls_of (trace w).
Proof.
  unfold get_account_balance. run_facade.
  destruct (futures_account _ _) as [[account_info|e] x]; simpl;
    [destruct account_info; simpl | destruct (is_api_exception e); simpl];
    by count_orders.
Qed.

Lemma get_open_orders_no_order self symbol w :
  order_calls_of (trace (get_open_orders self symbol w).2) = order_calls_of (trace w).
Proof.
  unfold get_open_orders. run_facade.
  destruct (futures_get_open_orders _ _ _) as [[orders|e] x]; simpl;
    [destruct (len orders) as [count|e]; simpl|];
    try destruct (is_api_exception e); simpl; by count_orders.
Qed.

Lemma get_symbol_info_no_order self symbol w :
  order_calls_of (trace (get_symbol_info self symbol w).2) = order_calls_of (trace w).
Proof.
  rewrite get_symbol_info_closed. unfold api_error_record. simpl.
  destruct (futures_symbol_ticker _ _ _) as [[ticker|e] x1]; simpl;
    [destruct (futures_exchange_info _ _) as [[exchange_info|e] x2]; simpl;
       [destruct (symbol_info_result _ _ _) as [result|e]; simpl|]|];
    try destruct (is_api_exception e); simpl; by count_orders.
Qed.

Lemma BasicBot_init_no_order api_key api_secret testnet w :
  order_calls_of (trace (BasicBot_init api_key api_secret testnet w).2)
  = order_calls_of (trace w).
Proof.
  unfold BasicBot_init, _test_connection, TradingBotLogger_init. run_facade.
  destruct (Client_new _ _ _ _) as [[c|e] x0]; simpl; [|by count_orders].
  destruct (futures_ping _ _) as [[ping_result|e] x1]; simpl;
    [|destruct (is_api_exception e); simpl; by count_orders].
  destruct (futures_account _ _) as [[account_info|e] x2]; simpl;
    [|destruct (is_api_exception e); simpl; by count_orders].
  destruct account_info; simpl; by count_orders.
Qed.

Lemma main_bot_no_order args w :
  order_calls_of (trace (main_bot args w).2) = order_calls_of (trace w).
Proof.
  unfold main_bot, attribute. unfold mbind, M_bind, eval, raise. simpl.
  destruct (args !! "api_key") as [k|]; simpl; [|done].
  destruct (args !! "api_secret") as [s|]; simpl; [|done].
  destruct (args !! "testnet") as [t|]; simpl; [|done].
  destruct k; try done. destruct s; try done. apply BasicBot_init_no_order.
Qed.

(** No order is sent: the four queries, the cancellation and the
    construction. *)
Lemma no_order_is_progress {A} (run : Result A * @World X) w :
  order_calls_of (trace run.2) = order_calls_of (trace w) →
  ∃ new,
    order_calls_of (trace run.2) = order_calls_of (trace w) ++ new
    ∧ Forall validated_order new.
Proof. intros ->. exists []. by rewrite app_nil_r. Qed.

(** ** What the prompts let through *)

Lemma accepts_side user_input v :
  accepts type_str (Some buy_or_sell) user_input = Some v →
  v = VStr "BUY" ∨ v = VStr "SELL".
Proof.
  unfold accepts. simpl.
  destruct (buy_or_sell _) eqn:Hside; [|done]. intros [= <-].
  unfold buy_or_sell in Hside. apply orb_true_iff in Hside as [Hbuy | Hsell].
  - left. by apply eq_str_true.
  - right. by apply eq_str_true.
Qed.

Lemma accepts_positive user_input v :
  accepts type_float (Some positive) user_input = Some v →
  ∃ x, v = VFloat x ∧ PrimFloat.ltb 0%float x = true.
Proof.
  unfold accepts. simpl.
  destruct (float_of_str user_input) as [x|]; simpl; [|done].
  destruct (PrimFloat.ltb 0%float x) eqn:Hpositive; [|done].
  intros [= <-]. by exists x.
Qed.

Lemma market_order_validated symbol side quantity timestamp :
  side = "BUY" ∨ side = "SELL" →
  PrimFloat.ltb 0%float quantity = true →
  validated_order (market_order_params symbol side quantity timestamp).
Proof.
  intros Hside Hquantity. unfold validated_order, market_order_params.
  split; [by destruct Hside as [-> | ->]; [left | right]|].
  split; [by exists quantity|]. split; by intros v.
Qed.

Lemma limit_order_validated symbol side quantity price timestamp :
  side = "BUY" ∨ side = "SELL" →
  PrimFloat.ltb 0%float quantity = true →
  PrimFloat.ltb 0%float price = true →
  validated_order (limit_order_params symbol side quantity price timestamp).
Proof.
  intros Hside Hquantity Hprice. unfold validated_order, limit_order_params.
  split; [by destruct Hside as [-> | ->]; [left | right]|].
  split; [by exists quantity|].
  split; [intros v [= <-]; by exists price | by intros v].
Qed.

Lemma stop_limit_order_validated symbol side quantity price stop_price timestamp :
  side = "BUY" ∨ side = "SELL" →
  PrimFloat.ltb 0%float quantity = true →
  PrimFloat.ltb 0%float price = true →
  PrimFloat.ltb 0%float stop_price = true →
  validated_order
    (stop_limit_order_params symbol side quantity price stop_price timestamp).
Proof.
  intros Hside Hquantity Hprice Hstop.
  unfold validated_order, stop_limit_order_params.
  split; [by destruct Hside as [-> | ->]; [left | right]|].
  split; [by exists quantity|].
  split; [intros v [= <-]; by exists price | intros v [= <-]; by exists stop_price].
Qed.

Lemma order_placed_no_order order : order_calls_of (order_placed order) = [].
Proof. reflexivity. Qed.

(** ** The entries of the menu *)

Ltac quiet_print_steps :=
  repeat first
    [ apply quiet_print
    | apply quiet_print_field
    | apply quiet_print_balance_field
    | apply quiet_calc
    | apply quiet_print_open_orders
    | apply quiet_ret
    | apply quiet_bind; [|intros ?] ].

Ltac no_order H :=
  apply quiet_facade; intros w; apply no_order_is_progress, H.

Lemma console_place_market_order_menu bot :
  console (place_market_order_menu bot) (λ _, True).
Proof.
  unfold place_market_order_menu.
  eapply console_bind; [apply console_ask|]. intros symbol _.
  eapply console_bind; [apply console_ask|].
  intros side [s [-> | ->]%accepts_side].
  all: eapply console_bind; [apply console_ask|].
  all: intros quantity [s1 (x & -> & Hx)%accepts_positive].
  all: apply console_guarded; [|done|intros e; apply printing_handler].
  all: apply quiet_bind; [|intros order; quiet_print_steps].
  all: apply quiet_facade; intros w; eexists; split;
    [rewrite place_market_order_round_trip;
     apply round_trip_order_calls, order_placed_no_order|].
  all: simpl; apply Forall_singleton, market_order_validated; auto.
Qed.

Lemma console_place_limit_order_menu bot :
  console (place_limit_order_menu bot) (λ _, True).
Proof.
  unfold place_limit_order_menu.
  eapply console_bind; [apply console_ask|]. intros symbol _.
  eapply console_bind; [apply console_ask|].
  intros side [s [-> | ->]%accepts_side].
  all: eapply console_bind; [apply console_ask|].
  all: intros quantity [s1 (x & -> & Hx)%accepts_positive].
  all: eapply console_bind; [apply console_ask|].
  all: intros price [s2 (y & -> & Hy)%accepts_positive].
  all: apply console_guarded; [|done|intros e; apply printing_handler].
  all: apply quiet_bind; [|intros order; quiet_print_steps].
  all: apply quiet_facade; intros w; eexists; split;
    [rewrite place_limit_order_round_trip;
     apply round_trip_order_calls, order_placed_no_order|].
  all: simpl; apply Forall_singleton, limit_order_validated; auto.
Qed.

Lemma console_place_stop_limit_order_menu bot :
  console (place_stop_limit_order_menu bot) (λ _, True).
Proof.
  unfold place_stop_limit_order_menu.
  eapply console_bind; [apply console_ask|]. intros symbol _.
  eapply console_bind; [apply console_ask|].
  intros side [s [-> | ->]%accepts_side].
  all: eapply console_bind; [apply console_ask|].
  all: intros quantity [s1 (x & -> & Hx)%accepts_positive].
  all: eapply console_bind; [apply console_ask|].
  all: intros price [s2 (y & -> & Hy)%accepts_positive].
  all: eapply console_bind; [apply console_ask|].
  all: intros stop_price [s3 (z & -> & Hz)%accepts_positive].
  all: apply console_guarded; [|done|intros e; apply printing_handler].
  all: apply quiet_bind; [|intros order; quiet_print_steps].
  all: apply quiet_facade; intros w; eexists; split;
    [rewrite place_stop_limit_order_round_trip;
     apply round_trip_order_calls, order_placed_no_order|].
  all: simpl; apply Forall_singleton, stop_limit_order_validated; auto.
Qed.

Lemma console_view_open_orders_menu bot :
  console (view_open_orders_menu bot) (λ _, True).
Proof.
  unfold view_open_orders_menu.
  eapply console_bind; [apply console_raw_input|]. intros user_input _.
  apply console_guarded; [|done|intros e; apply printing_handler].
  apply quiet_bind; [no_order get_open_orders_no_order|].
  intros orders. destruct (truthy orders); quiet_print_steps.
Qed.

Lemma console_cancel_order_menu bot : console (cancel_order_menu bot) (λ _, True).
Proof.
  unfold cancel_order_menu.
  eapply console_bind; [apply console_ask|]. intros symbol _.
  eapply console_bind; [apply console_ask|]. intros order_id _.
  apply console_guarded; [|done|intros e; apply printing_handler].
  apply quiet_bind; [|intros result; quiet_print_steps].
  apply quiet_facade; intros w. apply no_order_is_progress.
  rewrite cancel_order_round_trip. simpl.
  by rewrite round_trip_order_calls, app_nil_r.
Qed.

Lemma console_order_status_menu bot : console (order_status_menu bot) (λ _, True).
Proof.
  unfold order_status_menu.
  eapply console_bind; [apply console_ask|]. intros symbol _.
  eapply console_bind; [apply console_ask|]. intros order_id _.
  apply console_guarded; [|done|intros e; apply printing_handler].
  apply quiet_bind; [|intros order; quiet_print_steps].
  apply quiet_facade; intros w. apply no_order_is_progress.
  rewrite get_order_status_round_trip. simpl.
  by rewrite round_trip_order_calls, app_nil_r.
Qed.

Lemma console_symbol_info_menu bot : console (symbol_info_menu bot) (λ _, True).
Proof.
  unfold symbol_info_menu.
  eapply console_bind; [apply console_ask|]. intros symbol _.
  apply console_guarded; [|done|intros e; apply printing_handler].
  apply quiet_bind; [no_order get_symbol_info_no_order|].
  intros info. quiet_print_steps.
Qed.

Lemma console_account_balance_menu bot :
  console (account_balance_menu bot) (λ _, True).
Proof.
  unfold account_balance_menu.
  apply console_guarded; [|done|intros e; apply printing_handler].
  apply quiet_bind; [no_order get_account_balance_no_order|].
  intros balance. quiet_print_steps.
Qed.

Lemma console_quiet {A} (m : @P X A) (Q : A → Prop) :
  quiet m → (∀ p a, (m p).1 = Next a → Q a) →
  (∀ p s, (m p).1 ≠ Leave s) → console m Q.
Proof.
  intros Hquiet HQ Hreturns p. destruct (Hquiet p) as (Hprogress & _ & _).
  split; [done|]. destruct ((m p).1) as [a|s] eqn:Hrun; [by eapply HQ|].
  by destruct (Hreturns p s).
Qed.

Lemma console_continue (m : @P X unit) :
  console m (λ _, True) → console (m;; mret true) (λ _, True).
Proof.
  intros Hm. eapply console_bind; [exact Hm|]. intros _ _.
  apply console_quiet; [apply quiet_ret|done|done].
Qed.

Lemma console_dispatch bot choice : console (dispatch bot choice) (λ _, True).
Proof.
  unfold dispatch.
  repeat (case_match;
          [first [ apply console_continue | idtac ]|]).
  - apply console_place_market_order_menu.
  - apply console_place_limit_order_menu.
  - apply console_place_stop_limit_order_menu.
  - apply console_view_open_orders_menu.
  - apply console_cancel_order_menu.
  - apply console_order_status_menu.
  - apply console_symbol_info_menu.
  - apply console_account_balance_menu.
  - apply (console_bind _ _ (λ _, True));
      [apply console_quiet; [apply quiet_print|done|done]|].
    intros _ _. apply console_quiet; [apply quiet_ret|done|done].
  - apply console_quiet; [apply quiet_ret|done|done].
Qed.

(** ** The loop *)

Lemma menu_turn_unfold bot p :
  menu_turn bot p
  = (choice ← ask "Select an option (1-9): " type_str (Some menu_choice);
     dispatch bot choice)
      {| world := world p; stdin := stdin p;
         stdout := stdout p ++ (Printed <$> menu_text) |}.
Proof.
  unfold menu_turn. unfold mbind at 1. unfold P_bind at 1.
  by rewrite print_all_run.
Qed.

Lemma console_menu_turn bot : console (menu_turn bot) (λ _, True).
Proof.
  unfold menu_turn.
  apply (console_bind _ _ (λ _, True)).
  - apply console_quiet; [apply quiet_print_all|done|].
    intros p s. by rewrite print_all_run.
  - intros _ _. eapply console_bind; [apply console_ask|].
    intros choice _. apply console_dispatch.
Qed.

(** A turn that ends normally has read at least one line. *)
Lemma menu_turn_consumes bot p b p' :
  menu_turn bot p = (Next b, p') → length (stdin p') < length (stdin p).
Proof.
  rewrite menu_turn_unfold. unfold mbind, P_bind, ask. simpl.
  match goal with
  | |- context [validate_input ?prompt ?t ?f (stdin p) ?out] =>
      pose proof (validate_input_outcome prompt t f (stdin p) out) as Hrun;
      destruct (validate_input prompt t f (stdin p) out)
        as [[[v|code|e] rest] out']; simpl; [|done..]
  end.
  destruct Hrun as (bad & s & Hstdin & _).
  intros Hdispatch.
  destruct (console_dispatch bot v
              {| world := world p; stdin := rest; stdout := out' |})
    as [[Hlen _] _].
  rewrite Hdispatch in Hlen. simpl in Hlen.
  rewrite Hstdin, length_app. simpl. lia.
Qed.

Lemma menu_loop_facts turns bot : ∀ p r p',
  menu_loop turns bot p = Some (r, p') →
  progress p p'
  ∧ match r with
    | Next _ => True
    | Leave s => console_signal s p'
    end.
Proof.
  induction turns as [|turns IH]; intros p r p'; simpl; [done|].
  destruct (console_menu_turn bot p) as [Hprogress Hresult].
  destruct (menu_turn bot p) as [[[|]|s] p1]; simpl in *.
  - intros [Hprogress' Hresult']%IH. split; [by eapply progress_trans | done].
  - by intros [= <- <-].
  - by intros [= <- <-].
Qed.

Lemma menu_loop_enough turns bot : ∀ p,
  length (stdin p) < turns → ∃ r, menu_loop turns bot p = Some r.
Proof.
  induction turns as [|turns IH]; intros p Hturns; [lia|]. simpl.
  destruct (menu_turn bot p) as [[[|]|s] p1] eqn:Hturn; [|by eexists..].
  apply menu_turn_consumes in Hturn. apply IH. lia.
Qed.

Lemma menu_loop_more turns bot : ∀ turns' p r,
  menu_loop turns bot p = Some r → turns ≤ turns' →
  menu_loop turns' bot p = Some r.
Proof.
  induction turns as [|turns IH]; intros turns' p r; simpl; [done|].
  intros Hrun Hmore. destruct turns' as [|turns']; [lia|]. simpl.
  destruct (menu_turn bot p) as [[[|]|s] p1]; [|done..].
  apply IH; [done | lia].
Qed.

(** The startup does not read the console. *)
Lemma quiet_main_startup args : quiet (main_startup args).
Proof.
  unfold main_startup.
  apply quiet_bind; [no_order main_bot_no_order|]. intros bot.
  apply quiet_bind; [no_order get_account_balance_no_order|]. intros balance.
  quiet_print_steps.
Qed.

Lemma banner_run p :
  (print_all ["üöÄ Binance Futures Trading Bot"; equals_line] p).2
  = {| world := world p; stdin := stdin p;
       stdout := stdout p ++ [Printed "üöÄ Binance Futures Trading Bot";
                              Printed equals_line] |}.
Proof. by rewrite print_all_run. Qed.

Lemma main_bounded_enough argv p turns :
  length (stdin p) < turns →
  ∃ r, main_bounded turns argv p = Some r
       ∧ ∀ turns', turns ≤ turns' → main_bounded turns' argv p = Some r.
Proof.
  intros Hturns. unfold main_bounded.
  destruct (parse_args main_parser argv) as [args|]; [|by eexists].
  rewrite banner_run.
  set (p0 := {| world := world p; stdin := stdin p; stdout := _ |}).
  destruct (quiet_main_startup args p0) as (_ & Hstdin & _).
  destruct (main_startup args p0) as [[bot|s] p1]; simpl in *; [|by eexists].
  destruct (menu_loop_enough turns bot p1) as [r Hrun]; [by rewrite Hstdin|].
  exists (main_handlers r). rewrite Hrun. split; [done|].
  intros turns' Hmore. by rewrite (menu_loop_more _ _ _ _ _ Hrun Hmore).
Qed.

(** X15. [main] ends on every command line and every finite input:
    each turn of its loop that does not end it has read at least one
    line, so the loop takes at most one turn more than there are lines;
    any larger bound on the turns gives the same run. *)
Theorem main_terminates argv p :
  (∃ t p', main argv p = Some (t, p'))
  ∧ ∀ turns, length (stdin p) < turns → main_bounded turns argv p = main argv p.
Proof.
  destruct (main_bounded_enough argv p (S (length (stdin p))))
    as ([t p'] & Hmain & Hmore); [lia|].
  split; [by exists t, p'|].
  intros turns Hturns. unfold main. rewrite Hmain. apply Hmore. lia.
Qed.

(** X16. Once the facade is built and the first balance shown, nothing
    the exchange does ends the program: every error of an operation is
    caught in its menu entry and printed.  [main] then ends in one of
    three ways: it returns (choice 9, or an interrupt at the open-orders
    prompt), it exits with code 0 (an interrupt at any other prompt), or
    it exits with code 1 because the input ran out, after printing the
    fatal EOF error. *)
Theorem running_main_ends argv args p bot p1 :
  parse_args main_parser argv = Namespace args →
  main_startup args
    (print_all ["üöÄ Binance Futures Trading Bot"; equals_line] p).2
  = (Next bot, p1) →
  ∃ t p',
    main argv p = Some (t, p')
    ∧ (t = returns
       ∨ t = exits 0
       ∨ (t = exits 1
          ∧ stdin p' = []
          ∧ last (stdout p')
            = Some (Printed "‚ùå Fatal error: EOF when reading a line"))).
Proof.
  intros Hparse Hstartup.
  destruct (main_bounded_enough argv p (S (length (stdin p))))
    as ([t p'] & Hmain & _); [lia|].
  fold (main argv p) in Hmain.
  exists t, p'. split; [done|].
  unfold main, main_bounded in Hmain. rewrite Hparse, Hstartup in Hmain.
  destruct (menu_loop _ bot p1) as [[r p2]|] eqn:Hloop; [|done].
  apply menu_loop_facts in Hloop as [_ Hsignal].
  simpl in Hmain. destruct r as [[]|s]; simpl in Hmain.
  - injection Hmain as <- <-. by left.
  - destruct Hsignal as [-> | [-> | [-> Hstdin]]]; simpl in Hmain;
      injection Hmain as <- <-.
    + by left.
    + right. by left.
    + right. right. split; [done|]. split; [done|]. simpl. apply last_snoc.
Qed.

(** X17. Every order that a run of [main] sends to the exchange has
    passed the prompts: its side is BUY or SELL, its quantity is a float
    above zero, and so are its price and stop price when it has them.
    The symbol is not checked. *)
Theorem main_orders_are_validated argv p t p' :
  main argv p = Some (t, p') →
  ∃ new,
    order_calls_of (trace (world p'))
    = order_calls_of (trace (world p)) ++ new
    ∧ Forall validated_order new.
Proof.
  unfold main, main_bounded.
  destruct (parse_args main_parser argv) as [args|];
    [|intros [= <- <-]; exists []; by rewrite app_nil_r].
  rewrite banner_run.
  set (p0 := {| world := world p; stdin := stdin p; stdout := _ |}).
  destruct (quiet_main_startup args p0) as ([_ Hstart] & _ & _).
  assert (∀ r : step unit * @Process X, ∃ new,
            order_calls_of (trace (world (main_handlers r).2))
            = order_calls_of (trace (world r.2)) ++ new
            ∧ Forall validated_order new) as Hhandlers.
  { intros [[[]|[e| |code]] p2]; simpl; exists []; by rewrite app_nil_r. }
  destruct (main_startup args p0) as [[bot|s] p1]; unfold snd in Hstart;
    cbv beta iota.
  - match goal with
    | |- context [menu_loop ?n bot p1] =>
        destruct (menu_loop n bot p1) as [r|] eqn:Hloop; [|done]
    end.
    simpl. intros [= Hrun]. destruct r as [r p2].
    apply menu_loop_facts in Hloop as [[_ Hloop] _].
    destruct (Hhandlers (r, p2)) as (new3 & Hcalls3 & Hvalid3).
    rewrite Hrun in Hcalls3. simpl in Hcalls3.
    destruct Hstart as (new1 & Hcalls1 & Hvalid1), Hloop as (new2 & Hcalls2 & Hvalid2).
    exists (new1 ++ new2 ++ new3).
    rewrite Hcalls3, Hcalls2, Hcalls1, <- !app_assoc.
    split; [done|]. by rewrite !Forall_app.
  - intros [= Hrun]. change (main_handlers (Leave s, p1) = (t, p')) in Hrun.
    destruct (Hhandlers (Leave s, p1)) as (new3 & Hcalls3 & Hvalid3).
    rewrite Hrun in Hcalls3. simpl in Hcalls3.
    destruct Hstart as (new1 & Hcalls1 & Hvalid1).
    exists (new1 ++ new3). rewrite Hcalls3, Hcalls1, <- !app_assoc.
    split; [done|]. by rewrite !Forall_app.
Qed.

(** ** Single turns *)

Local Abbreviation silent := (@silent_step X _).








Lemma ask_accepts prompt t f p s v rest :
  stdin p = Line s :: rest →
  accepts t f s = Some v →
  ask prompt t f p
  = (Next v, {| world := world p; stdin := rest;
                stdout := stdout p ++ [Prompt prompt] |}).
Proof.
  intros Hstdin Hs. unfold ask.
  by rewrite Hstdin, (validate_input_accept _ _ _ _ _ _ _ Hs).
Qed.

(** X18. When the construction of the facade fails, or the first
    balance fetch after it, [main] prints the banner and the fatal error
    and exits with code 1; it has read nothing from the console and never
    shows the menu. *)
Theorem startup_failure_is_fatal argv args p e w' :
  parse_args main_parser argv = Namespace args →
  main_bot args (world p) = (Raise e, w')
  ∨ (∃ bot w1,
        main_bot args (world p) = (Ok bot, w1)
        ∧ get_account_balance bot w1 = (Raise e, w')) →
  main argv p
  = Some (exits 1,
          {| world := w'; stdin := stdin p;
             stdout := stdout p
                       ++ [Printed "üöÄ Binance Futures Trading Bot";
                           Printed equals_line;
                           Printed ("‚ùå Fatal error: " +:+ exn_str e)] |}).
Proof.
  intros Hparse Hfails. unfold main. unfold main_bounded.
  rewrite Hparse, banner_run.
  unfold main_startup, mbind, P_bind, facade. simpl.
  destruct Hfails as [Hbot | (bot & w1 & Hbot & Hbalance)].
  - rewrite Hbot. simpl. rewrite <- app_assoc. reflexivity.
  - rewrite Hbot. simpl. rewrite Hbalance. simpl. rewrite <- app_assoc.
    reflexivity.
Qed.

(** X19. The test of the menu prompt is a substring test, so it lets
    through more than the nine digits: a blank line, or a run such as
    "12" or "456".  Such a choice matches no entry: the turn does
    nothing, no error is reported, and the menu is shown again. *)
Theorem unmatched_choice_shows_menu_again bot p user_input rest :
  stdin p = Line user_input :: rest →
  is_substring (upper (strip user_input)) "123456789" = true →
  upper (strip user_input) ∉ ["1"; "2"; "3"; "4"; "5"; "6"; "7"; "8"; "9"] →
  menu_turn bot p
  = (Next true,
     {| world := world p; stdin := rest;
        stdout := stdout p ++ (Printed <$> menu_text)
                  ++ [Prompt "Select an option (1-9): "] |}).
Proof.
  intros Hstdin Hchoice Hunmatched. rewrite menu_turn_unfold.
  unfold mbind at 1. unfold P_bind at 1.
  erewrite ask_accepts; [|exact Hstdin|by unfold accepts, convert, menu_choice; rewrite Hchoice].
  simpl. unfold dispatch, eq_str.
  repeat (case_bool_decide;
          [exfalso; apply Hunmatched;
           match goal with Hdigit : upper _ = _ |- _ => rewrite Hdigit end;
           set_solver|]).
  simpl. rewrite <- app_assoc. reflexivity.
Qed.








End MainProperties.

(** * The further properties at concrete inputs *)

(** ** The facade *)

Lemma vendor_error_propagates_witness :
  ∃ w' added,
    perform sample_bot (op_cancel_order "BTCUSDT" "4242") (start [])
    = (Raise unreachable, w')
    ∧ env w' = []
    ∧ trace w' = [] ++ added
    ∧ length (calls_of added) = 1
    ∧ errors_of added = []
    ∧ responses_of added = [].
Proof.
  apply (vendor_error_propagates sample_bot (op_cancel_order "BTCUSDT" "4242")
           (start []) unreachable []).
  reflexivity.
Defined.

Lemma failed_operation_records_witness :
  let w := start [Ok sample_ticker; Ok sample_exchange_info] in
  ∃ added,
    trace (perform sample_bot (op_get_symbol_info "ZZZUSDT") w).2 = [] ++ added
    ∧ errors_of added = []
    ∧ responses_of added = [].
Proof.
  intros w.
  apply (failed_operation_records sample_bot (op_get_symbol_info "ZZZUSDT") w
           (not_found "ZZZUSDT")).
  vm_compute. reflexivity.
Defined.

Lemma exchange_info_error_propagates_witness :
  ∃ w' added,
    get_symbol_info sample_bot "BTCUSDT"
      (start [Ok sample_ticker; Raise invalid_symbol])
    = (Raise invalid_symbol, w')
    ∧ env w' = []
    ∧ trace w' = [] ++ added
    ∧ calls_of added
      = [("futures_symbol_ticker", {[ "symbol" := VStr "BTCUSDT" ]});
         ("futures_exchange_info", ∅)]
    ∧ errors_of added
      = [("Get Symbol Info for BTCUSDT", "APIError(code=-1121): Invalid symbol.")]
    ∧ responses_of added = [].
Proof.
  apply (exchange_info_error_propagates sample_bot "BTCUSDT"
           (start [Ok sample_ticker; Raise invalid_symbol])
           sample_ticker [Raise invalid_symbol] invalid_symbol []);
    reflexivity.
Defined.

Lemma local_failure_is_silent_witness :
  let w := start [Ok sample_ticker; Ok sample_exchange_info] in
  local_failure (not_found "ZZZUSDT")
  ∧ ∃ added,
      trace (get_symbol_info sample_bot "ZZZUSDT" w).2 = [] ++ added
      ∧ length (requests_of added) = 2
      ∧ length (calls_of added) = 2
      ∧ errors_of added = []
      ∧ responses_of added = [].
Proof.
  intros w.
  apply (local_failure_is_silent sample_bot "ZZZUSDT" w
           sample_ticker [Ok sample_exchange_info] sample_exchange_info []
           (not_found "ZZZUSDT"));
    [reflexivity | reflexivity | vm_compute; reflexivity].
Defined.

Lemma missing_lot_size_reads_na_witness :
  ∃ (result : dict) w',
    get_symbol_info sample_bot "ETHUSDT"
      (start [Ok sample_ticker; Ok sample_exchange_info])
    = (Ok (VDict result), w')
    ∧ result !! "minQty" = Some (VStr "N/A")
    ∧ result !! "stepSize" = Some (VStr "N/A")
    ∧ result !! "symbol" = Some (VStr "ETHUSDT").
Proof.
  apply (missing_lot_size_reads_na sample_bot "ETHUSDT"
           (start [Ok sample_ticker; Ok sample_exchange_info])
           sample_ticker [Ok sample_exchange_info] sample_exchange_info []
           sample_eth (VList []) []
           (VStr "50000.10") (VStr "TRADING") (VStr "ETH") (VStr "USDT"));
    try reflexivity.
  - exists (VList [sample_eth; sample_btc]), [], [sample_btc].
    split; [reflexivity|]. split; [reflexivity|].
    split; [constructor | reflexivity].
  - constructor.
Defined.

(** ** Construction *)

Lemma failed_check_error_records_witness :
  ∃ added,
    trace (BasicBot_init "key" "secret" true (start [Raise bad_key])).2
    = [] ++ added
    ∧ errors_of added
      = [("API Connection Test", exn_str bad_key);
         ("Bot Initialization", exn_str bad_key)]
    ∧ (calls_of added).*1 = ["Client"; "futures_ping"].
Proof.
  refine (failed_check_error_records "key" "secret" true (start [Raise bad_key])
            sample_client [Raise bad_key] bad_key _ _).
  - reflexivity.
  - left. exists []. reflexivity.
Defined.

Lemma client_constructor_failure_witness :
  ∃ w' added,
    @BasicBot_init unit unreachable_exchange "key" "secret" true
      {| env := tt; handlers := []; trace := [] |}
    = (Raise unreachable, w')
    ∧ env w' = tt
    ∧ trace w' = [] ++ added
    ∧ (calls_of added).*1 = ["Client"]
    ∧ requests_of added = []
    ∧ errors_of added = [("Bot Initialization", "connection refused")].
Proof.
  apply (@client_constructor_failure unit unreachable_exchange
           "key" "secret" true
           {| env := tt; handlers := []; trace := [] |} unreachable tt).
  reflexivity.
Defined.

Lemma successful_construction_witness :
  ∃ w' added,
    BasicBot_init "key" "secret" true (start [Ok (VDict ∅); Ok sample_account])
    = (Ok sample_bot, w')
    ∧ env w' = []
    ∧ trace w' = [] ++ added
    ∧ requests_of added = ["ping"; "account_info"]
    ∧ responses_of added = ["ping"; "account_info"]
    ∧ errors_of added = []
    ∧ Log INFO (ApiResponse "account_info"
                  (VDict {[ "status" := VStr "success";
                            "totalWalletBalance" := VStr "15000.00000000" ]}))
      ∈ added
    ∧ (true = false → client sample_bot = sample_client)
    ∧ (true = true →
         API_URL (client sample_bot) = testnet_url
         ∧ FUTURES_URL (client sample_bot) = testnet_url).
Proof.
  refine (successful_construction "key" "secret" true
           (start [Ok (VDict ∅); Ok sample_account])
           sample_client [Ok (VDict ∅); Ok sample_account]
           (VDict ∅) [Ok sample_account]
           {[ "totalWalletBalance" := VStr "15000.00000000";
              "availableBalance" := VStr "14000.00000000";
              "totalUnrealizedProfit" := VStr "0.00000000";
              "canTrade" := VBool true ]} [] _ _ _);
    reflexivity.
Defined.

(** ** The prompts *)



(** ** The command line *)

Lemma namespace_attributes_witness :
  dom sample_args = {[ "api_key"; "api_secret"; "testnet" ]}
  ∧ (∃ api_key, sample_args !! "api_key" = Some (VStr api_key))
  ∧ (∃ api_secret, sample_args !! "api_secret" = Some (VStr api_secret))
  ∧ sample_args !! "testnet" = Some (VBool true).
Proof.
  apply (namespace_attributes ["--api-secret=secret"; "--api-key"; "key"]).
  vm_compute. reflexivity.
Defined.

Lemma usual_command_line_witness :
  parse_args main_parser sample_argv = Namespace sample_args
  ∧ parse_args main_parser ["--api-secret"; "secret"; "--api-key"; "key"]
    = Namespace sample_args
  ∧ parse_args main_parser
      ["--api-key"; "key"; "--api-secret"; "secret"; "--testnet"]
    = Namespace sample_args
  ∧ parse_args main_parser
      ["--testnet"; "--api-key"; "key"; "--api-secret"; "secret"]
    = Namespace sample_args.
Proof. apply (usual_command_line "key" "secret"); reflexivity. Defined.

(** ** Runs of main *)

(** The input runs out at the menu after one unmatched choice. *)
Lemma running_main_ends_witness :
  let p := boot [Ok (VDict ∅); Ok sample_account; Ok sample_account]
             [Line "12"] in
  ∃ t p',
    main sample_argv p = Some (t, p')
    ∧ (t = returns
       ∨ t = exits 0
       ∨ (t = exits 1
          ∧ stdin p' = []
          ∧ last (stdout p')
            = Some (Printed "‚ùå Fatal error: EOF when reading a line"))).
Proof.
  intros p.
  refine (running_main_ends sample_argv sample_args p sample_bot
            (main_startup sample_args
               (print_all ["üöÄ Binance Futures Trading Bot"; equals_line] p).2).2
            _ _).
  - vm_compute. reflexivity.
  - vm_compute. reflexivity.
Defined.

(** A limit order and a rejected market order, then choice 9. *)
Lemma main_orders_are_validated_witness :
  let p := boot [Ok (VDict ∅); Ok sample_account; Ok sample_account;
                 Ok sample_order; Raise rejected]
             [Line "2"; Line "btcusdt"; Line "buy"; Line "0.01"; Line "50000";
              Line "1"; Line "btcusdt"; Line "sell"; Line "0"; Line "0.01";
              Line "9"] in
  ∃ p' new,
    main sample_argv p = Some (returns, p')
    ∧ order_calls_of (trace (world p')) = [] ++ new
    ∧ length new = 2
    ∧ Forall validated_order new.
Proof.
  intros p.
  assert (∃ p', main sample_argv p = Some (returns, p')) as [p' Hrun]
    by (eexists; vm_compute; reflexivity).
  destruct (main_orders_are_validated sample_argv p returns p' Hrun)
    as (new & Hcalls & Hvalidated).
  exists p', new. split; [exact Hrun|]. split; [exact Hcalls|].
  split; [|exact Hvalidated].
  vm_compute in Hrun. injection Hrun as <-. vm_compute in Hcalls.
  subst new. reflexivity.
Defined.

Lemma startup_failure_is_fatal_witness :
  let p := boot [Raise bad_key] [Line "9"] in
  main sample_argv p
  = Some (exits 1,
          {| world := (main_bot sample_args (start [Raise bad_key])).2;
             stdin := [Line "9"];
             stdout := [] ++ [Printed "üöÄ Binance Futures Trading Bot";
                              Printed equals_line;
                              Printed ("‚ùå Fatal error: " +:+ exn_str bad_key)] |}).
Proof.
  intros p.
  refine (startup_failure_is_fatal sample_argv sample_args p bad_key
            (main_bot sample_args (start [Raise bad_key])).2 _ _).
  - vm_compute. reflexivity.
  - left. vm_compute. reflexivity.
Defined.

(** ** Single turns *)

Lemma unmatched_choice_shows_menu_again_witness :
  menu_turn sample_bot (boot [] [Line "12"; Line "9"])
  = (Next true,
     {| world := start []; stdin := [Line "9"];
        stdout := [] ++ (Printed <$> menu_text)
                  ++ [Prompt "Select an option (1-9): "] |})
  ∧ menu_turn sample_bot (boot [] [Line "  "; Line "9"])
    = (Next true,
       {| world := start []; stdin := [Line "9"];
          stdout := [] ++ (Printed <$> menu_text)
                    ++ [Prompt "Select an option (1-9): "] |}).
Proof.
  split.
  - refine (unmatched_choice_shows_menu_again sample_bot
              (boot [] [Line "12"; Line "9"]) "12" [Line "9"] _ _ _).
    + reflexivity.
    + reflexivity.
    + apply (bool_decide_unpack _). vm_compute. exact I.
  - refine (unmatched_choice_shows_menu_again sample_bot
              (boot [] [Line "  "; Line "9"]) "  " [Line "9"] _ _ _).
    + reflexivity.
    + reflexivity.
    + apply (bool_decide_unpack _). vm_compute. exact I.
Defined.


